(** * Field-level encryption and role-based access control of the EHR server

    A shallow embedding of the TypeScript modules [server/src/middleware/rbac.ts],
    [server/src/utils/encryption.ts] and [server/src/models/Patient.ts], together
    with a model of the parts of the JavaScript runtime they call (Buffer, base64,
    UTF-8, the [crypto] cipher objects).  The arithmetic core of the primitives
    (PBKDF2, AES in counter mode, the GCM tag) is a parameter of the development:
    see the class [Crypto].

    Further, the pattern that [server/src/middleware/validation.ts] holds a social
    security number against, the token check of [server/src/middleware/auth.ts],
    the audit log of [server/src/utils/audit.ts] and
    [server/src/middleware/accessLog.ts], and the rewrite of the proxy in
    [vite.config.js]. *)

From Stdlib Require Import ZArith Lia List.
From Stdlib.Strings Require Import Byte Ascii.
From stdpp Require Import base option list strings gmap.

(** ** Strings, bytes and buffers *)

(** A JavaScript string is a sequence of UTF-16 code units. *)
Abbreviation jsstring := (list Z).

Definition is_code_unit (c : Z) : Prop := (0 <= c < 65536)%Z.

(** An ASCII literal read as a JavaScript string. *)
Definition js (s : string) : jsstring :=
  (fun a => Z.of_N (N_of_ascii a)) <$> String.list_ascii_of_string s.

Definition byte_to_Z (b : byte) : Z := Z.of_N (Byte.to_N b).

(** Storing an integer into a byte keeps its low eight bits. *)
Definition byte_of_Z (z : Z) : byte :=
  match Byte.of_N (Z.to_N (z mod 256)) with
  | Some b => b
  | None => x00
  end.

Abbreviation Buffer := (list byte).

#[global] Instance byte_eq_dec : EqDecision byte := Byte.byte_eq_dec.

(** [buf.slice(start, end)]: both indices are clamped to the length. *)
Definition Buffer_slice (buf : Buffer) (start end_ : nat) : Buffer :=
  take (end_ - start) (drop start buf).

(** [buf.slice(start)] *)
Definition Buffer_slice_from (buf : Buffer) (start : nat) : Buffer :=
  drop start buf.

Definition Buffer_concat (parts : list Buffer) : Buffer := concat parts.

(** ** Base64: [buf.toString('base64')] and [Buffer.from(s, 'base64')] *)

Module Base64.
Local Open Scope Z_scope.

(** The character of a six-bit value in the standard alphabet. *)
Definition char (v : Z) : Z :=
  if v <? 26 then 65 + v
  else if v <? 52 then 97 + (v - 26)
  else if v <? 62 then 48 + (v - 52)
  else if v =? 62 then 43
  else 47.

Definition pad : Z := 61.

(** The decoder's table: the standard and the URL-safe alphabet. *)
Definition unbase64 (c : Z) : option Z :=
  if (65 <=? c) && (c <=? 90) then Some (c - 65)
  else if (97 <=? c) && (c <=? 122) then Some (c - 71)
  else if (48 <=? c) && (c <=? 57) then Some (c + 4)
  else if (c =? 43) || (c =? 45) then Some 62
  else if (c =? 47) || (c =? 95) then Some 63
  else None.

Fixpoint encode (bs : Buffer) : jsstring :=
  match bs with
  | [] => []
  | [a] =>
      let x := byte_to_Z a in
      [char (x / 4); char ((x mod 4) * 16); pad; pad]
  | [a; b] =>
      let x := byte_to_Z a in
      let y := byte_to_Z b in
      [char (x / 4); char ((x mod 4) * 16 + y / 16); char ((y mod 16) * 4); pad]
  | a :: b :: c :: rest =>
      let x := byte_to_Z a in
      let y := byte_to_Z b in
      let z := byte_to_Z c in
      char (x / 4) :: char ((x mod 4) * 16 + y / 16)
        :: char ((y mod 16) * 4 + z / 64) :: char (z mod 64) :: encode rest
  end.

(** The decoder reads a code unit by its low byte.  It is forgiving: a
    character outside the table is skipped and the first padding character ends
    the input. *)
Fixpoint sextets (s : jsstring) : list Z :=
  match s with
  | [] => []
  | c :: s' =>
      let c := c mod 256 in
      if c =? pad then []
      else match unbase64 c with
           | Some v => v :: sextets s'
           | None => sextets s'
           end
  end.

Fixpoint bytes (vs : list Z) : Buffer :=
  match vs with
  | v0 :: v1 :: v2 :: v3 :: rest =>
      byte_of_Z (v0 * 4 + v1 / 16) :: byte_of_Z ((v1 mod 16) * 16 + v2 / 4)
        :: byte_of_Z ((v2 mod 4) * 64 + v3) :: bytes rest
  | [v0; v1; v2] =>
      [byte_of_Z (v0 * 4 + v1 / 16); byte_of_Z ((v1 mod 16) * 16 + v2 / 4)]
  | [v0; v1] => [byte_of_Z (v0 * 4 + v1 / 16)]
  | _ => []
  end.

Definition decode (s : jsstring) : Buffer := bytes (sextets s).

End Base64.

(** ** UTF-8: [Buffer.from(s, 'utf8')] and [buf.toString('utf8')] *)

Module UTF8.
Local Open Scope Z_scope.

Definition is_high_surrogate (c : Z) : bool := (0xD800 <=? c) && (c <=? 0xDBFF).
Definition is_low_surrogate (c : Z) : bool := (0xDC00 <=? c) && (c <=? 0xDFFF).

(** U+FFFD, which stands in for whatever cannot be transcoded. *)
Definition replacement : Z := 0xFFFD.

(** The bytes of one code point. *)
Definition code_point_bytes (cp : Z) : Buffer :=
  if cp <? 0x80 then [byte_of_Z cp]
  else if cp <? 0x800 then
    [byte_of_Z (0xC0 + cp / 64); byte_of_Z (0x80 + cp mod 64)]
  else if cp <? 0x10000 then
    [byte_of_Z (0xE0 + cp / 4096); byte_of_Z (0x80 + (cp / 64) mod 64);
     byte_of_Z (0x80 + cp mod 64)]
  else
    [byte_of_Z (0xF0 + cp / 262144); byte_of_Z (0x80 + (cp / 4096) mod 64);
     byte_of_Z (0x80 + (cp / 64) mod 64); byte_of_Z (0x80 + cp mod 64)].

(** Writing a string as UTF-8: a surrogate pair is one code point, and a
    surrogate without its partner is written as U+FFFD. *)
Fixpoint encode (s : jsstring) : Buffer :=
  match s with
  | [] => []
  | c :: s' =>
      if is_high_surrogate c then
        match s' with
        | d :: s'' =>
            if is_low_surrogate d then
              code_point_bytes (0x10000 + (c - 0xD800) * 1024 + (d - 0xDC00))
                ++ encode s''
            else code_point_bytes replacement ++ encode s'
        | [] => code_point_bytes replacement
        end
      else if is_low_surrogate c then code_point_bytes replacement ++ encode s'
      else code_point_bytes c ++ encode s'
  end.

(** The code units of one code point. *)
Definition code_units (cp : Z) : jsstring :=
  if cp <? 0x10000 then [cp]
  else [0xD800 + (cp - 0x10000) / 1024; 0xDC00 + (cp - 0x10000) mod 1024].

Definition is_continuation (x : Z) : bool := (0x80 <=? x) && (x <=? 0xBF).

(** The range of the second byte after the lead byte [x0] of a three-byte or
    four-byte sequence: overlong forms, surrogates and code points past
    U+10FFFF are excluded here. *)
Definition second_ok (x0 x1 : Z) : bool :=
  ((if (x0 =? 0xE0) then 0xA0 else if (x0 =? 0xF0) then 0x90 else 0x80) <=? x1)
  && (x1 <=? (if (x0 =? 0xED) then 0x9F else if (x0 =? 0xF4) then 0x8F else 0xBF)).

(** Reading UTF-8: an ill-formed sequence yields U+FFFD and decoding resumes at
    the byte that broke it. *)
Fixpoint decode (bs : Buffer) : jsstring :=
  match bs with
  | [] => []
  | b0 :: r0 =>
      let x0 := byte_to_Z b0 in
      if x0 <? 0x80 then x0 :: decode r0
      else if (0xC2 <=? x0) && (x0 <=? 0xDF) then
        match r0 with
        | b1 :: r1 =>
            let x1 := byte_to_Z b1 in
            if is_continuation x1
            then ((x0 - 0xC0) * 64 + (x1 - 0x80)) :: decode r1
            else replacement :: decode r0
        | [] => [replacement]
        end
      else if (0xE0 <=? x0) && (x0 <=? 0xEF) then
        match r0 with
        | b1 :: r1 =>
            let x1 := byte_to_Z b1 in
            if second_ok x0 x1 then
              match r1 with
              | b2 :: r2 =>
                  let x2 := byte_to_Z b2 in
                  if is_continuation x2
                  then ((x0 - 0xE0) * 4096 + (x1 - 0x80) * 64 + (x2 - 0x80))
                         :: decode r2
                  else replacement :: decode r1
              | [] => [replacement]
              end
            else replacement :: decode r0
        | [] => [replacement]
        end
      else if (0xF0 <=? x0) && (x0 <=? 0xF4) then
        match r0 with
        | b1 :: r1 =>
            let x1 := byte_to_Z b1 in
            if second_ok x0 x1 then
              match r1 with
              | b2 :: r2 =>
                  let x2 := byte_to_Z b2 in
                  if is_continuation x2 then
                    match r2 with
                    | b3 :: r3 =>
                        let x3 := byte_to_Z b3 in
                        if is_continuation x3
                        then code_units ((x0 - 0xF0) * 262144 + (x1 - 0x80) * 4096
                                         + (x2 - 0x80) * 64 + (x3 - 0x80))
                               ++ decode r3
                        else replacement :: decode r2
                    | [] => [replacement]
                    end
                  else replacement :: decode r1
              | [] => [replacement]
              end
            else replacement :: decode r0
        | [] => [replacement]
        end
      else replacement :: decode r0
  end.

(** Strings that UTF-8 can carry: code units in range, every surrogate paired. *)
Inductive well_formed : jsstring -> Prop :=
| wf_nil : well_formed []
| wf_unit c s :
    is_code_unit c -> is_high_surrogate c = false -> is_low_surrogate c = false ->
    well_formed s -> well_formed (c :: s)
| wf_pair h l s :
    is_high_surrogate h = true -> is_low_surrogate l = true ->
    well_formed s -> well_formed (h :: l :: s).

(** A Unicode scalar value: a code point that is no surrogate. *)
Definition scalar (cp : Z) : Prop :=
  0 <= cp < 0x110000 /\ ~ (0xD800 <= cp <= 0xDFFF).

End UTF8.

(** ** Exceptions and results *)

(** The errors the modelled calls raise, named after the call that raises them. *)
Inductive error :=
| TypeError            (* an argument of the wrong type, a call of a non-function *)
| UnknownCipher        (* createCipheriv, createDecipheriv: no such algorithm *)
| SyntaxError          (* JSON.parse on a text that is not JSON *)
| KeyDerivationError   (* the err passed to the callback of crypto.pbkdf2 *)
| InvalidIV            (* createCipheriv, createDecipheriv: no initialization vector *)
| InvalidKeyLength     (* createCipheriv, createDecipheriv: the key is not 32 bytes *)
| InvalidAuthTag       (* setAuthTag: not a tag length of GCM *)
| IntegrityError.      (* decipher.final: unable to authenticate data *)

(** The outcome of a call, and of awaiting a promise: a value or an exception. *)
Inductive result (A : Type) :=
| Ok (a : A)
| Throw (e : error).
Arguments Ok {A} a.
Arguments Throw {A} e.

#[global] Instance result_ret : MRet result := @Ok.
#[global] Instance result_bind : MBind result := fun A B f m =>
  match m with
  | Ok a => f a
  | Throw e => Throw e
  end.

#[global] Instance error_eq_dec : EqDecision error.
Proof. solve_decision. Defined.

(** ** Values of record fields *)

(** A field of a record holds a string, nothing ([undefined]) or some other
    value of the JSON data a record is made of (null, a boolean, a number, an
    array, a plain object).  The modelled code never inspects the inner
    structure of the latter, of type [O]: it only hands such a value to the
    runtime. *)
Inductive JSValue (O : Type) :=
| VUndefined
| VString (s : jsstring)
| VOther (o : O).
Arguments VUndefined {O}.
Arguments VString {O} s.
Arguments VOther {O} o.

(** The calls of the runtime that the record model makes: [JSON.stringify(v)],
    [JSON.parse(text)], [Buffer.from(v, 'base64')] for a [v] that is neither
    a string nor [undefined] (the bytes of an array, a TypeError for the rest),
    and the bytes of a value that is a Buffer, a TypedArray or a DataView
    (nothing for every other value). *)
Class Runtime := {
  JSOther : Type;
  JSON_stringify : JSValue JSOther -> result (JSValue JSOther);
  JSON_parse : jsstring -> result (JSValue JSOther);
  Buffer_from_other : JSOther -> result Buffer;
  view_bytes : JSOther -> option Buffer;
}.

(** [Buffer.from(v, 'base64')] *)
Definition Buffer_from_base64 `{Runtime} (v : JSValue JSOther) : result Buffer :=
  match v with
  | VUndefined => Throw TypeError
  | VString s => Ok (Base64.decode s)
  | VOther o => Buffer_from_other o
  end.

(** ** Random bytes *)

(** The entropy source is a stream of bytes; [crypto.randomBytes(size)] takes
    the next [size] of them. *)
Definition entropy := nat -> byte.

Definition randomBytes (size : nat) (rng : entropy) : Buffer * entropy :=
  (rng <$> seq 0 size, fun i => rng (size + i)).

(** ** The crypto primitives *)

(** What OpenSSL computes.  [pbkdf2 password salt iterations keylen digest] is
    the derived key, or nothing when the primitive reports an error;
    [gcm_encrypt key iv data] and [gcm_decrypt key iv data] are AES-256 in the
    counter mode of GCM; [gcm_tag key iv ciphertext] is the full 16-byte tag of
    GCM with no associated data. *)
Class Crypto := {
  pbkdf2 : jsstring -> Buffer -> N -> nat -> string -> option Buffer;
  gcm_encrypt : Buffer -> Buffer -> Buffer -> Buffer;
  gcm_decrypt : Buffer -> Buffer -> Buffer -> Buffer;
  gcm_tag : Buffer -> Buffer -> Buffer -> Buffer;
}.

(** ** Cipher objects of the crypto module *)

(** The one algorithm modelled is AES-256-GCM. *)
Definition aes_256_gcm : string := "aes-256-gcm".

Section CipherObjects.
Context `{Crypto} `{Runtime}.

(** A cipher keeps its key and initialization vector and the ciphertext it has
    produced; the source feeds it with a single [update]. *)
Record Cipher := {
  cipher_key : Buffer;
  cipher_iv : Buffer;
  cipher_text : Buffer;
}.

(** A decipher keeps, besides, the tag it was given. *)
Record Decipher := {
  decipher_key : Buffer;
  decipher_iv : Buffer;
  decipher_tag : option Buffer;
  decipher_text : Buffer;
}.

(** GCM takes an initialization vector of any length but zero; AES-256 takes a
    key of 32 bytes. *)
Definition check_key_iv (algorithm : string) (key iv : Buffer) : result unit :=
  if decide (algorithm = aes_256_gcm) then
    if decide (length iv = 0) then Throw InvalidIV
    else if decide (length key = 32) then Ok ()
    else Throw InvalidKeyLength
  else Throw UnknownCipher.

Definition createCipheriv (algorithm : string) (key iv : Buffer) : result Cipher :=
  _ ← check_key_iv algorithm key iv;
  Ok {| cipher_key := key; cipher_iv := iv; cipher_text := [] |}.

(** The bytes that [cipher.update(data, 'utf8')] takes of its argument: a
    string is written as UTF-8; a Buffer, a TypedArray or a DataView gives its
    own bytes, whatever the encoding named; every other value is refused. *)
Definition Cipher_input (data : JSValue JSOther) : result Buffer :=
  match data with
  | VString s => Ok (UTF8.encode s)
  | VOther o =>
      match view_bytes o with
      | Some bytes => Ok bytes
      | None => Throw TypeError
      end
  | VUndefined => Throw TypeError
  end.

Definition Cipher_update (c : Cipher) (data : JSValue JSOther)
  : result (Buffer * Cipher) :=
  input ← Cipher_input data;
  let out := gcm_encrypt (cipher_key c) (cipher_iv c) input in
  Ok (out, {| cipher_key := cipher_key c; cipher_iv := cipher_iv c;
              cipher_text := out |}).

(** [cipher.final()]: a counter mode holds nothing back. *)
Definition Cipher_final (c : Cipher) : Buffer * Cipher := ([], c).

Definition getAuthTag (c : Cipher) : Buffer :=
  gcm_tag (cipher_key c) (cipher_iv c) (cipher_text c).

Definition createDecipheriv (algorithm : string) (key iv : Buffer) : result Decipher :=
  _ ← check_key_iv algorithm key iv;
  Ok {| decipher_key := key; decipher_iv := iv; decipher_tag := None;
        decipher_text := [] |}.

(** The tag lengths of GCM: 4, 8 and 12 to 16 bytes. *)
Definition valid_gcm_tag_length (n : nat) : bool :=
  bool_decide (n = 4 ∨ n = 8 ∨ 12 ≤ n ≤ 16).

(** [decipher.setAuthTag(tag)]: no [authTagLength] was given to the decipher,
    so every tag length of GCM is taken. *)
Definition setAuthTag (d : Decipher) (tag : Buffer) : result Decipher :=
  if valid_gcm_tag_length (length tag) then
    Ok {| decipher_key := decipher_key d; decipher_iv := decipher_iv d;
          decipher_tag := Some tag; decipher_text := decipher_text d |}
  else Throw InvalidAuthTag.

(** [decipher.update(data)]: the bytes are decrypted before the tag is checked. *)
Definition Decipher_update (d : Decipher) (data : Buffer) : Buffer * Decipher :=
  (gcm_decrypt (decipher_key d) (decipher_iv d) data,
   {| decipher_key := decipher_key d; decipher_iv := decipher_iv d;
      decipher_tag := decipher_tag d; decipher_text := data |}).

(** [decipher.final()]: the tag given is compared, over its own length, with
    the tag of the ciphertext received; it yields no further bytes. *)
Definition Decipher_final (d : Decipher) : result Buffer :=
  match decipher_tag d with
  | Some tag =>
      if decide (take (length tag)
                   (gcm_tag (decipher_key d) (decipher_iv d) (decipher_text d)) = tag)
      then Ok []
      else Throw IntegrityError
  | None => Throw IntegrityError
  end.

End CipherObjects.

(** ** server/src/utils/encryption.ts *)

Definition ALGORITHM : string := aes_256_gcm.
Definition IV_LENGTH : nat := 16.
Definition SALT_LENGTH : nat := 64.
Definition TAG_LENGTH : nat := 16.
Definition KEY_LENGTH : nat := 32.
Definition ITERATIONS : N := 100000.

Module Encryption.

(** The initialization vector and the salt that a call of [encrypt] draws from
    [rng], in this order, and the entropy it leaves. *)
Definition drawn_iv (rng : entropy) : Buffer := fst (randomBytes IV_LENGTH rng).

Definition drawn_salt (rng : entropy) : Buffer :=
  fst (randomBytes SALT_LENGTH (snd (randomBytes IV_LENGTH rng))).

Definition consumed (rng : entropy) : entropy :=
  snd (randomBytes SALT_LENGTH (snd (randomBytes IV_LENGTH rng))).

Section Encryption.
Context `{Crypto} `{Runtime}.

(** The promise settles once: when the callback gets an [err] it is rejected
    with it, and the [resolve] that follows has no effect. *)
Definition deriveKey (key : jsstring) (salt : Buffer) : result Buffer :=
  match pbkdf2 key salt ITERATIONS KEY_LENGTH "sha512" with
  | None => Throw KeyDerivationError
  | Some derivedKey => Ok derivedKey
  end.

(** The envelope before its text encoding. *)
Definition envelope (salt iv tag encrypted : Buffer) : Buffer :=
  Buffer_concat [salt; iv; tag; encrypted].

(** The envelope of the bytes of a plaintext under a derived key, a salt and
    an initialization vector. *)
Definition sealed (data dk salt iv : Buffer) : Buffer :=
  let ct := gcm_encrypt dk iv data in
  envelope salt iv (gcm_tag dk iv ct) ct.

Definition encrypt (text : JSValue JSOther) (key : jsstring) (rng : entropy)
  : result (jsstring * entropy) :=
  let '(iv, rng) := randomBytes IV_LENGTH rng in
  let '(salt, rng) := randomBytes SALT_LENGTH rng in
  derivedKey ← deriveKey key salt;
  cipher ← createCipheriv ALGORITHM derivedKey iv;
  '(head, cipher) ← Cipher_update cipher text;
  let '(tail, cipher) := Cipher_final cipher in
  let encrypted := Buffer_concat [head; tail] in
  let tag := getAuthTag cipher in
  Ok (Base64.encode (envelope salt iv tag encrypted), rng).

(** The four slices that [decrypt] takes of the decoded envelope. *)
Definition segments (buffer : Buffer) : Buffer * Buffer * Buffer * Buffer :=
  (Buffer_slice buffer 0 SALT_LENGTH,
   Buffer_slice buffer SALT_LENGTH (SALT_LENGTH + IV_LENGTH),
   Buffer_slice buffer (SALT_LENGTH + IV_LENGTH) (SALT_LENGTH + IV_LENGTH + TAG_LENGTH),
   Buffer_slice_from buffer (SALT_LENGTH + IV_LENGTH + TAG_LENGTH)).

(** What [decrypt] does with the bytes of the envelope. *)
Definition open (buffer : Buffer) (key : jsstring) : result jsstring :=
  let '(salt, iv, tag, encrypted) := segments buffer in
  derivedKey ← deriveKey key salt;
  decipher ← createDecipheriv ALGORITHM derivedKey iv;
  decipher ← setAuthTag decipher tag;
  let '(plain, decipher) := Decipher_update decipher encrypted in
  last ← Decipher_final decipher;
  Ok (UTF8.decode plain ++ UTF8.decode last).

Definition decrypt (encryptedText : JSValue JSOther) (key : jsstring)
  : result jsstring :=
  buffer ← Buffer_from_base64 encryptedText;
  open buffer key.

End Encryption.
End Encryption.

(** ** server/src/models/Patient.ts *)

Module Patient.
Section Patient.
Context `{Crypto} `{Runtime}.

(** [process.env.DATA_ENCRYPTION_KEY] *)
Variable ENCRYPTION_KEY : jsstring.

(** A patient is an object; reading a property it lacks gives [undefined]. *)
Abbreviation record := (gmap string (JSValue JSOther)).

Definition get (patient : record) (name : string) : JSValue JSOther :=
  default VUndefined (patient !! name).

Definition encrypt (patient : record) (rng : entropy) : result (record * entropy) :=
  '(ssn, rng) ← Encryption.encrypt (get patient "ssn") ENCRYPTION_KEY rng;
  text ← JSON_stringify (get patient "medicalHistory");
  '(medicalHistory, rng) ← Encryption.encrypt text ENCRYPTION_KEY rng;
  Ok (<["medicalHistory" := VString medicalHistory]>
        (<["ssn" := VString ssn]> patient), rng).

Definition decrypt (patient : record) : result record :=
  ssn ← Encryption.decrypt (get patient "ssn") ENCRYPTION_KEY;
  text ← Encryption.decrypt (get patient "medicalHistory") ENCRYPTION_KEY;
  medicalHistory ← JSON_parse text;
  Ok (<["medicalHistory" := medicalHistory]> (<["ssn" := VString ssn]> patient)).

End Patient.
End Patient.

(** ** server/src/middleware/rbac.ts *)

(** An object literal with string values, its properties in the order written. *)
Abbreviation literal := (list (string * string)).

(** [o.name] *)
Definition member (o : literal) (name : string) : string :=
  default "undefined" ((list_to_map o : gmap string string) !! name).

(** [Object.values(o)] *)
Definition Object_values (o : literal) : list string := snd <$> o.

(** The properties every object literal inherits from [Object.prototype]: all
    of them functions, but [__proto__], which is the prototype itself. *)
Definition Object_prototype : list string :=
  ["constructor"; "__defineGetter__"; "__defineSetter__"; "hasOwnProperty";
   "__lookupGetter__"; "__lookupSetter__"; "isPrototypeOf";
   "propertyIsEnumerable"; "toString"; "valueOf"; "__proto__"; "toLocaleString"].

(** What [o[name]] finds: a property of the literal itself, an inherited one,
    or nothing ([undefined]). *)
Inductive property (A : Type) :=
| Own (v : A)
| Inherited
| Missing.
Arguments Own {A} v.
Arguments Inherited {A}.
Arguments Missing {A}.

Definition get_property {A} (o : gmap string A) (name : string) : property A :=
  match o !! name with
  | Some v => Own v
  | None => if bool_decide (name ∈ Object_prototype) then Inherited else Missing
  end.

Definition roles : literal :=
  [("ADMIN", "admin"); ("DOCTOR", "doctor"); ("NURSE", "nurse"); ("PATIENT", "patient")].

Definition permissions : literal :=
  [("READ_PATIENT", "read:patient"); ("WRITE_PATIENT", "write:patient");
   ("READ_RECORD", "read:record"); ("WRITE_RECORD", "write:record");
   ("MANAGE_USERS", "manage:users")].

Definition rolePermissions : gmap string (list string) :=
  list_to_map
    [(member roles "ADMIN", Object_values permissions);
     (member roles "DOCTOR",
       [member permissions "READ_PATIENT"; member permissions "WRITE_PATIENT";
        member permissions "READ_RECORD"; member permissions "WRITE_RECORD"]);
     (member roles "NURSE",
       [member permissions "READ_PATIENT"; member permissions "READ_RECORD";
        member permissions "WRITE_RECORD"]);
     (member roles "PATIENT", [member permissions "READ_RECORD"])].

(** [req.user], as the token verification left it. *)
Record User := { user_role : string }.
Record Request := { req_user : User }.

(** What the middleware does with a request: it calls [next()], it answers
    with a status and an error text, or it raises. *)
Inductive outcome :=
| Next
| Respond (status : nat) (message : string)
| Raise (e : error).

#[global] Instance outcome_eq_dec : EqDecision outcome.
Proof. solve_decision. Defined.

(** In [rolePermissions[userRole]?.includes(permission)] the [?.] stops at
    [undefined]; an inherited property is not [undefined] and has no
    [includes], so calling it is a TypeError. *)
Definition checkPermission (permission : string) (req : Request) : outcome :=
  let userRole := user_role (req_user req) in
  match get_property rolePermissions userRole with
  | Own granted =>
      if bool_decide (permission ∈ granted) then Next
      else Respond 403 "Insufficient permissions"
  | Missing => Respond 403 "Insufficient permissions"
  | Inherited => Raise TypeError
  end.

(** The decision of the gate for a principal: the request goes on. *)
Definition authorize (principal : User) (permission : string) : bool :=
  bool_decide (checkPermission permission {| req_user := principal |} = Next).

(** The principal with a given role, and a request made by it. *)
Definition principal (role : string) : User := {| user_role := role |}.
Definition request (role : string) : Request := {| req_user := principal role |}.

(** ** The laws of the primitives *)

Section Laws.
Context `{Crypto}.

(** PBKDF2 with the parameters of the source yields a key of the length asked
    for, whatever the password and the salt. *)
Definition pbkdf2_derives : Prop :=
  forall password salt, exists dk,
    pbkdf2 password salt ITERATIONS KEY_LENGTH "sha512" = Some dk
    /\ length dk = KEY_LENGTH.

(** Decryption undoes encryption under the same key and initialization vector. *)
Definition gcm_inverse : Prop :=
  forall key iv data, gcm_decrypt key iv (gcm_encrypt key iv data) = data.

(** A counter mode yields as many bytes as it is given. *)
Definition gcm_keeps_length : Prop :=
  forall key iv data, length (gcm_encrypt key iv data) = length data.

(** The full tag has 16 bytes. *)
Definition gcm_tag_full : Prop :=
  forall key iv data, length (gcm_tag key iv data) = 16.

(** Under [key], the tag tells a ciphertext from each one that differs from it
    in one byte. *)
Definition gcm_tag_binds (key : Buffer) : Prop :=
  forall iv data i b b',
    data !! i = Some b -> b' <> b ->
    gcm_tag key iv (<[i := b']> data) <> gcm_tag key iv data.

(** The laws every theorem about a whole encryption relies on. *)
Class CryptoLaws : Prop := {
  law_pbkdf2 : pbkdf2_derives;
  law_inverse : gcm_inverse;
  law_tag_full : gcm_tag_full;
}.

End Laws.

(** ** An instance of the primitives

    A small cipher that obeys the laws: the key stream is one byte repeated, the
    tag a checksum.  It shows that the laws can be met together, and it lets the
    definitions above run on concrete data. *)

Module Reference.
Local Open Scope Z_scope.

(** The sum of the bytes, modulo 256. *)
Definition checksum (bs : Buffer) : Z :=
  foldr (fun b acc => (byte_to_Z b + acc) mod 256) 0 bs.

Definition ref_pbkdf2 (password : jsstring) (salt : Buffer) (iterations : N)
    (keylen : nat) (digest : string) : option Buffer :=
  Some (replicate keylen
          (byte_of_Z (checksum (UTF8.encode password ++ salt) + Z.of_N iterations))).

Definition pad_byte (key iv : Buffer) : Z := checksum (key ++ iv).

Definition ref_encrypt (key iv data : Buffer) : Buffer :=
  (fun b => byte_of_Z (byte_to_Z b + pad_byte key iv)) <$> data.

Definition ref_decrypt (key iv data : Buffer) : Buffer :=
  (fun b => byte_of_Z (byte_to_Z b - pad_byte key iv)) <$> data.

Definition ref_tag (key iv data : Buffer) : Buffer :=
  byte_of_Z (checksum data + pad_byte key iv)
    :: replicate 15 (byte_of_Z (pad_byte key iv)).

#[export] Instance crypto : Crypto := {|
  pbkdf2 := ref_pbkdf2;
  gcm_encrypt := ref_encrypt;
  gcm_decrypt := ref_decrypt;
  gcm_tag := ref_tag;
|}.

(** A fragment of JSON: the literals [true] and [false], and strings between
    quotes with nothing to escape. *)
Definition quote : Z := 34.

Definition ref_stringify (v : JSValue bool) : result (JSValue bool) :=
  match v with
  | VUndefined => Ok VUndefined
  | VString s => Ok (VString (quote :: s ++ [quote]))
  | VOther true => Ok (VString (js "true"))
  | VOther false => Ok (VString (js "false"))
  end.

Definition ref_parse (text : jsstring) : result (JSValue bool) :=
  if decide (text = js "true") then Ok (VOther true)
  else if decide (text = js "false") then Ok (VOther false)
  else match text with
       | q :: rest =>
           match reverse rest with
           | q' :: inner =>
               if decide (q = quote /\ q' = quote /\ quote ∉ inner)
               then Ok (VString (reverse inner))
               else Throw SyntaxError
           | [] => Throw SyntaxError
           end
       | [] => Throw SyntaxError
       end.

#[export] Instance runtime : Runtime := {|
  JSOther := bool;
  JSON_stringify := ref_stringify;
  JSON_parse := ref_parse;
  Buffer_from_other := fun _ => Throw TypeError;
  view_bytes := fun _ => None;
|}.

(** An entropy source, and a source stuck at one byte. *)
Definition counting : entropy := fun i => byte_of_Z (Z.of_nat i * 7 + 3).
Definition stuck : entropy := fun _ => x2a.

(** A secret, a social security number and a patient record to run on. *)
Definition secret : jsstring := js "test-secret".
Definition ssn : jsstring := js "123-45-6789".

Definition patient : gmap string (JSValue bool) :=
  {[ "firstName" := VString (js "Ada");
     "ssn" := VString ssn;
     "medicalHistory" := VString (js "asthma") ]}.

(** The envelope that [encrypt] makes of a string under [secret], drawing
    from [counting]. *)
Definition envelope_of (P : jsstring) : jsstring :=
  match Encryption.encrypt (VString P) secret counting with
  | Ok (env, _) => env
  | Throw _ => []
  end.

(** The envelope of the empty string cut down to 92 bytes: the whole of the
    salt and of the initialization vector, and the first twelve bytes of the
    tag. *)
Definition cut_envelope : jsstring :=
  Base64.encode (take 92 (Base64.decode (envelope_of []))).

End Reference.

(** ** Regular expressions of the sources *)

Module RegExp.

(** What one character is matched against: [\d], or the character itself. *)
Inductive atom :=
| Digit
| Char (c : Z).

(** The terms of a pattern: the assertions [^] and [$] (no [m] flag), one
    atom, and an atom repeated a fixed number of times, as in [\d{3}]. *)
Inductive term :=
| AtStart
| AtEnd
| One (a : atom)
| Repeat (n : nat) (a : atom).

Abbreviation pattern := (list term).

Definition atom_matches (a : atom) (c : Z) : bool :=
  match a with
  | Digit => (48 <=? c)%Z && (c <=? 57)%Z
  | Char x => (c =? x)%Z
  end.

(** The input left after [n] characters that match [a]. *)
Fixpoint consume (n : nat) (a : atom) (s : jsstring) : option jsstring :=
  match n with
  | 0 => Some s
  | S n' =>
      match s with
      | c :: s' => if atom_matches a c then consume n' a s' else None
      | [] => None
      end
  end.

(** The input left after a match of the pattern at position [index], where
    [s] is the input from that position on. *)
Fixpoint match_here (p : pattern) (index : nat) (s : jsstring) : option jsstring :=
  match p with
  | [] => Some s
  | AtStart :: p' => if decide (index = 0) then match_here p' index s else None
  | AtEnd :: p' =>
      match s with
      | [] => match_here p' index s
      | _ :: _ => None
      end
  | One a :: p' =>
      match consume 1 a s with
      | Some s' => match_here p' (index + 1) s'
      | None => None
      end
  | Repeat n a :: p' =>
      match consume n a s with
      | Some s' => match_here p' (index + n) s'
      | None => None
      end
  end.

(** The leftmost match from position [index] on: the input before it and the
    input after it. *)
Fixpoint search (p : pattern) (index : nat) (s : jsstring) {struct s}
  : option (jsstring * jsstring) :=
  match match_here p index s with
  | Some rest => Some ([], rest)
  | None =>
      match s with
      | [] => None
      | c :: s' =>
          match search p (S index) s' with
          | Some (before, after) => Some (c :: before, after)
          | None => None
          end
      end
  end.

(** [pattern.test(s)] *)
Definition test (p : pattern) (s : jsstring) : bool :=
  bool_decide (is_Some (search p 0 s)).

(** [s.replace(pattern, replacement)], the pattern without the [g] flag and
    the replacement without [$]. *)
Definition replace (p : pattern) (replacement s : jsstring) : jsstring :=
  match search p 0 s with
  | Some (before, after) => before ++ replacement ++ after
  | None => s
  end.

End RegExp.

(** [\d] without the [u] flag: the ten digits of ASCII. *)
Definition is_digit (c : Z) : Prop := (48 <= c <= 57)%Z.

(** ** server/src/middleware/validation.ts: the pattern of [body('ssn')] *)

(** [/^\d{3}-\d{2}-\d{4}$/] *)
Definition ssn_pattern : RegExp.pattern :=
  [RegExp.AtStart; RegExp.Repeat 3 RegExp.Digit; RegExp.One (RegExp.Char 45);
   RegExp.Repeat 2 RegExp.Digit; RegExp.One (RegExp.Char 45);
   RegExp.Repeat 4 RegExp.Digit; RegExp.AtEnd].

(** [body('ssn').matches(...)] on a string. *)
Definition ssn_matches (s : jsstring) : bool := RegExp.test ssn_pattern s.

(** The strings of the form ddd-dd-dddd. *)
Definition ssn_shape (s : jsstring) : Prop :=
  exists a b c d e f g h i,
    Forall is_digit [a; b; c; d; e; f; g; h; i]
    /\ s = [a; b; c; 45; d; e; 45; f; g; h; i]%Z.

(** ** vite.config.js: the rewrite of the proxy *)

(** [/^\/api/] *)
Definition api_prefix : RegExp.pattern :=
  [RegExp.AtStart; RegExp.One (RegExp.Char 47); RegExp.One (RegExp.Char 97);
   RegExp.One (RegExp.Char 112); RegExp.One (RegExp.Char 105)].

(** The console is the list of the lines logged, each a label and a value. *)
Definition rewrite (path : jsstring) (console : list (string * jsstring))
  : jsstring * list (string * jsstring) :=
  let console := console ++ [("Original path:", path)] in
  let newPath := RegExp.replace api_prefix [] path in
  let console := console ++ [("Rewritten path:", newPath)] in
  (newPath, console).

(** ** server/src/middleware/auth.ts *)

(** [s.split(sep)] for a separator of one character. *)
Fixpoint split (sep : Z) (s : jsstring) : list jsstring :=
  match s with
  | [] => [[]]
  | c :: s' =>
      if (c =? sep)%Z then [] :: split sep s'
      else match split sep s' with
           | field :: fields => (c :: field) :: fields
           | [] => [[c]]
           end
  end.

(** What the modelled middlewares read of a decoded token: [id] and [role]. *)
Record Payload := { payload_id : string; payload_role : string }.

(** What the modelled middlewares read of a request: the Authorization
    header, [req.user], and the method, path, query and body that the access
    log records.  [D] is the type of the data of a request or response. *)
Record Req (D : Type) := {
  req_authorization : option jsstring;
  req_payload : option Payload;
  req_method : string;
  req_path : string;
  req_query : D;
  req_body : D;
}.
Arguments req_authorization {D} _.
Arguments req_payload {D} _.
Arguments req_method {D} _.
Arguments req_path {D} _.
Arguments req_query {D} _.
Arguments req_body {D} _.

(** [req.user = decoded] *)
Definition set_user {D} (req : Req D) (decoded : Payload) : Req D :=
  {| req_authorization := req_authorization req; req_payload := Some decoded;
     req_method := req_method req; req_path := req_path req;
     req_query := req_query req; req_body := req_body req |}.

(** The request with another [req.user]. *)
Definition with_user {D} (req : Req D) (user : option Payload) : Req D :=
  {| req_authorization := req_authorization req; req_payload := user;
     req_method := req_method req; req_path := req_path req;
     req_query := req_query req; req_body := req_body req |}.

Section Authentication.
Context {D : Type}.

(** [jwt.verify(token, secret)]: the payload, or an exception. *)
Variable jwt_verify : jsstring -> jsstring -> result Payload.

(** [process.env.JWT_SECRET] *)
Variable JWT_SECRET : jsstring.

(** [req.headers.authorization?.split(' ')[1]] *)
Definition bearer (req : Req D) : option jsstring :=
  header ← req_authorization req; split 32 header !! 1.

(** A middleware hands back the request as it leaves it and what it did. *)
Definition verifyToken (req : Req D) : Req D * outcome :=
  match bearer req with
  | None | Some [] => (req, Respond 401 "No token provided")
  | Some token =>
      match jwt_verify token JWT_SECRET with
      | Ok decoded => (set_user req decoded, Next)
      | Throw _ => (req, Respond 401 "Invalid token")
      end
  end.

(** [checkPermission(permission)] on such a request: reading [role] of a
    [req.user] that is not set is a TypeError. *)
Definition checkPermission_of (permission : string) (req : Req D) : Req D * outcome :=
  (req,
   match req_payload req with
   | Some decoded => checkPermission permission (request (payload_role decoded))
   | None => Raise TypeError
   end).

(** The router runs the middlewares of a route in turn, as long as each one
    calls [next()]. *)
Fixpoint run (stack : list (Req D -> Req D * outcome)) (req : Req D) : Req D * outcome :=
  match stack with
  | [] => (req, Next)
  | middleware :: rest =>
      let '(req', done) := middleware req in
      match done with
      | Next => run rest req'
      | _ => (req', done)
      end
  end.

End Authentication.

(** ** server/src/utils/audit.ts and server/src/middleware/accessLog.ts *)

(** What [logAudit] reads of the identifier [req] of its scope. *)
Record ScopeReq := { scope_ip : string; scope_user_agent : string }.

Record AuditEntry (D : Type) := {
  entry_userId : string;
  entry_action : string;
  entry_resource : string;
  entry_details : string * D * D;
  entry_ip : string;
  entry_userAgent : string;
}.
Arguments entry_userId {D} _.
Arguments entry_action {D} _.
Arguments entry_resource {D} _.
Arguments entry_details {D} _.
Arguments entry_ip {D} _.
Arguments entry_userAgent {D} _.

(** The lines of [audit.log] and the bodies sent, oldest first. *)
Record World (D : Type) := {
  audit_log : list (AuditEntry D);
  sent : list D;
}.
Arguments audit_log {D} _.
Arguments sent {D} _.

(** An exception of the code before, or the one raised for an identifier
    that nothing binds. *)
Inductive exception :=
| Known (e : error)
| ReferenceError (identifier : string).

(** [res.send]: the function of the framework, or the one that
    [logDataAccess] put in its place, which keeps the previous one. *)
Inductive Sender :=
| OriginalSend
| AuditedSend (originalSend : Sender).

Section Audit.
Context {D : Type}.

(** [logAudit] has no parameter and no import called [req]: the identifier
    is looked up in the global scope, [scope] being what it finds there. *)
Variable scope : option ScopeReq.

Definition logAudit (userId action resource : string) (details : string * D * D)
    (w : World D) : World D * option exception :=
  match scope with
  | None => (w, Some (ReferenceError "req"))
  | Some global =>
      ({| audit_log := audit_log w ++
            [{| entry_userId := userId; entry_action := action;
                entry_resource := resource; entry_details := details;
                entry_ip := scope_ip global;
                entry_userAgent := scope_user_agent global |}];
          sent := sent w |}, None)
  end.

(** The [res.send] of the framework does not write every body itself: a
    boolean, a number, and an object that is neither null nor a Buffer go to
    [res.json], which makes the JSON text and calls [this.send] with it.
    [res_json body] is that text for such a body, and nothing for a body that
    [res.send] writes (a string, a Buffer, null). *)
Variable res_json : D -> option D.

(** The body is written to the response. *)
Definition write (body : D) (w : World D) : World D * option exception :=
  ({| audit_log := audit_log w; sent := sent w ++ [body] |}, None).

(** A call of the function [s] with [body] while serving [req].  The function
    installed by [logDataAccess] reads [req.user.id], logs, and calls the
    function it replaced; at the end of the chain stands the function of the
    framework, which does [original]. *)
Fixpoint call (s : Sender) (original : D -> World D -> World D * option exception)
    (req : Req D) (body : D) (w : World D) : World D * option exception :=
  match s with
  | OriginalSend => original body w
  | AuditedSend originalSend =>
      match req_payload req with
      | None => (w, Some (Known TypeError))
      | Some user =>
          match logAudit (payload_id user) "data_access" (req_path req)
                  (req_method req, req_query req, req_body req) w with
          | (w', None) => call originalSend original req body w'
          | (w', Some e) => (w', Some e)
          end
      end
  end.

(** [res.send(body)] while serving [req], [s] being the function installed as
    [res.send].  When the function of the framework is reached with a body for
    [res.json], [this.send] is called with the text, and [this.send] is [s]
    again: the chain is gone through a second time, and the text is written. *)
Definition send (s : Sender) (req : Req D) (body : D) (w : World D)
  : World D * option exception :=
  call s (fun body w =>
            match res_json body with
            | Some text => call s write req text w
            | None => write body w
            end) req body w.

(** The middleware replaces [res.send] and calls [next()]. *)
Definition logDataAccess (res_send : Sender) : Sender * outcome :=
  (AuditedSend res_send, Next).

End Audit.

(** [logDataAccess] mounted [n] times on a response. *)
Fixpoint mounted (n : nat) (res_send : Sender) : Sender :=
  match n with
  | 0 => res_send
  | S n' => fst (logDataAccess (mounted n' res_send))
  end.

(** The line that the access log writes for a request, given what the
    identifier [req] of [logAudit] stands for. *)
Definition access_entry {D} (global : ScopeReq) (user : Payload) (req : Req D)
  : AuditEntry D :=
  {| entry_userId := payload_id user; entry_action := "data_access";
     entry_resource := req_path req;
     entry_details := (req_method req, req_query req, req_body req);
     entry_ip := scope_ip global; entry_userAgent := scope_user_agent global |}.

(** A character of base64 text: of the standard alphabet, or the padding. *)
Definition base64_character (c : Z) : Prop :=
  (65 <= c <= 90 \/ 97 <= c <= 122 \/ 48 <= c <= 57 \/ c = 43 \/ c = 47 \/ c = 61)%Z.

(** ** Requests to run on *)

Module Sample.

(** A token, the payload it carries, and a verification that accepts this
    token under the secret of the reference instance and refuses all else. *)
Definition token : jsstring := js "header.payload.signature".

Definition nurse : Payload := {| payload_id := "user-17"; payload_role := "nurse" |}.

Definition jwt_verify (candidate secret : jsstring) : result Payload :=
  if decide (candidate = token /\ secret = Reference.secret) then Ok nurse
  else Throw IntegrityError.

(** The data of a request or a response: a string, or an object or array
    given by its JSON text. *)
Inductive data :=
| Text (s : jsstring)
| Json (text : jsstring).

Definition res_json (body : data) : option data :=
  match body with
  | Text _ => None
  | Json text => Some (Text text)
  end.

(** A request for the records of a patient. *)
Definition get_records (authorization : option jsstring) (user : option Payload)
  : Req data :=
  {| req_authorization := authorization; req_payload := user;
     req_method := "GET"; req_path := "/patients/7/records";
     req_query := Json (js "{}"); req_body := Json (js "{}") |}.

Definition scope : ScopeReq :=
  {| scope_ip := "10.0.0.1"; scope_user_agent := "curl/8.5.0" |}.

Definition world : World data := {| audit_log := []; sent := [] |}.

End Sample.

(** * Proofs *)

(** ** Bytes *)

Ltac zdiv := Z.div_mod_to_equations; lia.

Lemma byte_to_Z_range b : (0 <= byte_to_Z b < 256)%Z.
Proof.
  unfold byte_to_Z. pose proof (Byte.to_N_bounded b). lia.
Qed.

Lemma byte_of_to_Z b : byte_of_Z (byte_to_Z b) = b.
Proof.
  unfold byte_of_Z. pose proof (byte_to_Z_range b) as Hr.
  rewrite Z.mod_small by exact Hr. unfold byte_to_Z.
  rewrite N2Z.id, Byte.of_to_N. reflexivity.
Qed.

Lemma byte_to_of_Z_mod z : byte_to_Z (byte_of_Z z) = (z mod 256)%Z.
Proof.
  unfold byte_of_Z.
  assert (Hr : (0 <= z mod 256 < 256)%Z) by (apply Z.mod_pos_bound; lia).
  destruct (Byte.of_N (Z.to_N (z mod 256))) as [b|] eqn:E.
  - apply Byte.to_of_N in E. unfold byte_to_Z. rewrite E. lia.
  - apply Byte.of_N_None_iff in E. lia.
Qed.

Lemma byte_to_of_Z z : (0 <= z < 256)%Z -> byte_to_Z (byte_of_Z z) = z.
Proof. intros Hz. rewrite byte_to_of_Z_mod. apply Z.mod_small, Hz. Qed.

Lemma byte_of_Z_eq z b : z = byte_to_Z b -> byte_of_Z z = b.
Proof. intros ->. apply byte_of_to_Z. Qed.

Lemma byte_to_Z_inj a b : byte_to_Z a = byte_to_Z b -> a = b.
Proof.
  intros E. rewrite <- (byte_of_to_Z a), <- (byte_of_to_Z b), E. reflexivity.
Qed.

(** ** Base64 is read back as written *)

Module Base64Facts.
Import Base64.
Local Open Scope Z_scope.

Lemma unbase64_char v : 0 <= v < 64 -> unbase64 (char v) = Some v /\ char v <> pad.
Proof.
  intros Hv. unfold unbase64, char, pad.
  repeat match goal with
         | |- context [if ?c then _ else _] => destruct c eqn:?
         end; split; try (f_equal; lia); try lia.
Qed.

(** A character of the alphabet is below 256: reading its low byte reads it. *)
Lemma char_low v : 0 <= v < 64 -> char v mod 256 = char v.
Proof.
  intros Hv. apply Z.mod_small. unfold char.
  repeat match goal with
         | |- context [if ?c then _ else _] => destruct c eqn:?
         end; lia.
Qed.

(** What the decoder does with a code unit that is its own low byte. *)
Lemma sextets_cons c s :
  0 <= c < 256 ->
  sextets (c :: s) =
    if c =? pad then []
    else match unbase64 c with
         | Some v => v :: sextets s
         | None => sextets s
         end.
Proof. intros Hc. cbn [sextets]. rewrite Z.mod_small by exact Hc. reflexivity. Qed.

Lemma sextets_char v s : 0 <= v < 64 -> sextets (char v :: s) = v :: sextets s.
Proof.
  intros Hv. destruct (unbase64_char v Hv) as [E Hp].
  cbn [sextets]. rewrite char_low by exact Hv. cbv zeta. rewrite E.
  destruct (Z.eqb_spec (char v) pad); [contradiction|reflexivity].
Qed.

Lemma sextets_pad s : sextets (pad :: s) = [].
Proof. reflexivity. Qed.

Lemma base64_decode_encode bs : decode (encode bs) = bs.
Proof.
  unfold decode.
  remember (length bs) as n eqn:Hn.
  revert bs Hn. induction (lt_wf n) as [n _ IH]. intros bs Hn.
  destruct bs as [|a [|b [|c rest]]]; [reflexivity| | |].
  - pose proof (byte_to_Z_range a).
    cbn [encode]. rewrite !sextets_char, sextets_pad by zdiv.
    cbn [bytes]. f_equal. apply byte_of_Z_eq. zdiv.
  - pose proof (byte_to_Z_range a). pose proof (byte_to_Z_range b).
    cbn [encode]. rewrite !sextets_char, sextets_pad by zdiv.
    cbn [bytes]. f_equal; [|f_equal]; apply byte_of_Z_eq; zdiv.
  - pose proof (byte_to_Z_range a). pose proof (byte_to_Z_range b).
    pose proof (byte_to_Z_range c).
    cbn [encode]. rewrite !sextets_char by zdiv.
    cbn [bytes]. rewrite (IH (length rest)) by (subst n; cbn; lia || reflexivity).
    f_equal; [|f_equal; [|f_equal]]; apply byte_of_Z_eq; zdiv.
Qed.

Lemma base64_encode_inj a b : encode a = encode b -> a = b.
Proof.
  intros E. rewrite <- (base64_decode_encode a), <- (base64_decode_encode b), E. reflexivity.
Qed.

End Base64Facts.

(** ** UTF-8 is read back as written, for the strings it can carry *)

Module UTF8Facts.
Import UTF8.
Local Open Scope Z_scope.

(** Settles the test at the head of the goal from the bounds at hand. *)
Ltac head_test :=
  cbn [andb orb negb];
  lazymatch goal with
  | |- (if ?c then _ else _) = _ =>
      match c with
      | context [Z.eqb ?a ?b] => destruct (Z.eqb_spec a b); try lia
      | context [Z.ltb ?a ?b] => destruct (Z.ltb_spec a b); try lia
      | context [Z.leb ?a ?b] => destruct (Z.leb_spec a b); try lia
      end
  end.

Lemma decode_1 x r :
  0 <= x < 0x80 -> decode (byte_of_Z x :: r) = x :: decode r.
Proof.
  intros Hx. cbn [decode]. rewrite byte_to_of_Z by lia. cbv zeta.
  repeat head_test. reflexivity.
Qed.

Lemma decode_2 x0 x1 r :
  0xC2 <= x0 <= 0xDF -> 0x80 <= x1 <= 0xBF ->
  decode (byte_of_Z x0 :: byte_of_Z x1 :: r)
  = ((x0 - 0xC0) * 64 + (x1 - 0x80)) :: decode r.
Proof.
  intros H0 H1. cbn [decode]. rewrite !byte_to_of_Z by lia. cbv zeta.
  unfold is_continuation. repeat head_test. reflexivity.
Qed.

Lemma decode_3 x0 x1 x2 r :
  0xE0 <= x0 <= 0xEF -> 0x80 <= x1 <= 0xBF -> 0x80 <= x2 <= 0xBF ->
  (x0 = 0xE0 -> 0xA0 <= x1) -> (x0 = 0xED -> x1 <= 0x9F) ->
  decode (byte_of_Z x0 :: byte_of_Z x1 :: byte_of_Z x2 :: r)
  = ((x0 - 0xE0) * 4096 + (x1 - 0x80) * 64 + (x2 - 0x80)) :: decode r.
Proof.
  intros H0 H1 H2 Hlo Hhi. cbn [decode]. rewrite !byte_to_of_Z by lia. cbv zeta.
  unfold is_continuation, second_ok. repeat head_test; reflexivity.
Qed.

Lemma decode_4 x0 x1 x2 x3 r :
  0xF0 <= x0 <= 0xF4 -> 0x80 <= x1 <= 0xBF -> 0x80 <= x2 <= 0xBF ->
  0x80 <= x3 <= 0xBF ->
  (x0 = 0xF0 -> 0x90 <= x1) -> (x0 = 0xF4 -> x1 <= 0x8F) ->
  decode (byte_of_Z x0 :: byte_of_Z x1 :: byte_of_Z x2 :: byte_of_Z x3 :: r)
  = code_units ((x0 - 0xF0) * 262144 + (x1 - 0x80) * 4096
                + (x2 - 0x80) * 64 + (x3 - 0x80)) ++ decode r.
Proof.
  intros H0 H1 H2 H3 Hlo Hhi. cbn [decode]. rewrite !byte_to_of_Z by lia. cbv zeta.
  unfold is_continuation, second_ok. repeat head_test; reflexivity.
Qed.

Lemma decode_code_point cp r :
  scalar cp -> decode (code_point_bytes cp ++ r) = code_units cp ++ decode r.
Proof.
  intros [Hr Hs]. unfold code_point_bytes.
  destruct (Z.ltb_spec cp 0x80); [|destruct (Z.ltb_spec cp 0x800);
    [|destruct (Z.ltb_spec cp 0x10000)]]; cbn [app].
  - rewrite decode_1 by lia. unfold code_units.
    destruct (Z.ltb_spec cp 0x10000); [reflexivity|lia].
  - rewrite decode_2 by zdiv. unfold code_units.
    destruct (Z.ltb_spec cp 0x10000); [|lia]. cbn [app]. f_equal. zdiv.
  - rewrite decode_3 by zdiv. unfold code_units.
    destruct (Z.ltb_spec cp 0x10000); [|lia]. cbn [app]. f_equal. zdiv.
  - rewrite decode_4 by zdiv. f_equal. f_equal. zdiv.
Qed.

Lemma units_of_pair h l :
  is_high_surrogate h = true -> is_low_surrogate l = true ->
  scalar (0x10000 + (h - 0xD800) * 1024 + (l - 0xDC00))
  /\ code_units (0x10000 + (h - 0xD800) * 1024 + (l - 0xDC00)) = [h; l].
Proof.
  unfold is_high_surrogate, is_low_surrogate, scalar, code_units.
  intros Hh Hl. apply andb_true_iff in Hh as [Hh1 Hh2]. apply andb_true_iff in Hl as [Hl1 Hl2].
  apply Z.leb_le in Hh1, Hh2, Hl1, Hl2.
  split; [lia|].
  destruct (Z.ltb_spec (0x10000 + (h - 0xD800) * 1024 + (l - 0xDC00)) 0x10000); [lia|].
  f_equal; [|f_equal]; zdiv.
Qed.

Lemma scalar_unit c :
  is_code_unit c -> is_high_surrogate c = false -> is_low_surrogate c = false ->
  scalar c /\ code_units c = [c].
Proof.
  unfold is_code_unit, is_high_surrogate, is_low_surrogate, scalar, code_units.
  intros Hc Hh Hl.
  apply andb_false_iff in Hh, Hl. rewrite !Z.leb_gt in Hh, Hl.
  split; [lia|]. destruct (Z.ltb_spec c 0x10000); [reflexivity|lia].
Qed.

Lemma utf8_decode_encode s : well_formed s -> decode (encode s) = s.
Proof.
  induction 1 as [|c s Hc Hh Hl Hs IH|h l s Hh Hl Hs IH].
  - reflexivity.
  - destruct (scalar_unit c Hc Hh Hl) as [Hsc Hu].
    cbn [encode]. rewrite Hh, Hl, decode_code_point, Hu, IH by exact Hsc.
    reflexivity.
  - destruct (units_of_pair h l Hh Hl) as [Hsc Hu].
    cbn [encode]. rewrite Hh, Hl, decode_code_point, Hu, IH by exact Hsc.
    reflexivity.
Qed.

Lemma utf8_decode_nil : decode [] = [].
Proof. reflexivity. Qed.

(** A high surrogate on its own comes back as U+FFFD. *)
Lemma lone_surrogate : decode (encode [0xD800]) = [replacement].
Proof. vm_compute. reflexivity. Qed.

Lemma well_formed_js s : well_formed (js s).
Proof.
  unfold js. induction (String.list_ascii_of_string s) as [|a l IH]; [constructor|].
  rewrite fmap_cons.
  pose proof (N_ascii_bounded a).
  apply wf_unit; [unfold is_code_unit; lia| | |exact IH].
  - unfold is_high_surrogate. apply andb_false_iff. left. apply Z.leb_gt. lia.
  - unfold is_low_surrogate. apply andb_false_iff. left. apply Z.leb_gt. lia.
Qed.

End UTF8Facts.

(** ** What [encrypt] builds and what [open] answers *)

Module EncryptionFacts.
Import Encryption.

Lemma randomBytes_length n rng : length (fst (randomBytes n rng)) = n.
Proof. unfold randomBytes. cbn [fst]. rewrite length_fmap, length_seq. reflexivity. Qed.

Lemma drawn_iv_length rng : length (drawn_iv rng) = IV_LENGTH.
Proof. apply randomBytes_length. Qed.

Lemma drawn_salt_length rng : length (drawn_salt rng) = SALT_LENGTH.
Proof. apply randomBytes_length. Qed.

Lemma segments_envelope salt iv tag encrypted :
  length salt = SALT_LENGTH -> length iv = IV_LENGTH -> length tag = TAG_LENGTH ->
  segments (envelope salt iv tag encrypted) = (salt, iv, tag, encrypted).
Proof.
  intros Hs Hi Ht. unfold segments, envelope, Buffer_concat, Buffer_slice, Buffer_slice_from.
  cbn [concat]. rewrite app_nil_r, drop_0, Nat.sub_0_r.
  replace (SALT_LENGTH + IV_LENGTH - SALT_LENGTH) with IV_LENGTH by reflexivity.
  replace (SALT_LENGTH + IV_LENGTH + TAG_LENGTH - (SALT_LENGTH + IV_LENGTH))
    with TAG_LENGTH by reflexivity.
  rewrite (take_app_length' salt) by (symmetry; exact Hs).
  rewrite (drop_app_length' salt) by (symmetry; exact Hs).
  rewrite (take_app_length' iv) by (symmetry; exact Hi).
  rewrite (drop_app_add' salt) by (symmetry; exact Hs).
  rewrite (drop_app_length' iv) by (symmetry; exact Hi).
  rewrite (take_app_length' tag) by (symmetry; exact Ht).
  change (SALT_LENGTH + IV_LENGTH + TAG_LENGTH)
    with (SALT_LENGTH + (IV_LENGTH + TAG_LENGTH)).
  rewrite (drop_app_add' salt) by (symmetry; exact Hs).
  rewrite (drop_app_add' iv) by (symmetry; exact Hi).
  rewrite (drop_app_length' tag) by (symmetry; exact Ht).
  reflexivity.
Qed.

Section WithCrypto.
Context `{Crypto}.

(** A call of [encrypt] that returns: its argument gave bytes to the cipher,
    the key was derived, and the envelope is the sealed one. *)
Lemma encrypt_inv `{Runtime} (text : JSValue JSOther) K rng env rng' :
  encrypt text K rng = Ok (env, rng') ->
  exists data dk,
    Cipher_input text = Ok data
    /\ deriveKey K (drawn_salt rng) = Ok dk
    /\ length dk = 32
    /\ env = Base64.encode (sealed data dk (drawn_salt rng) (drawn_iv rng))
    /\ rng' = consumed rng.
Proof.
  unfold encrypt, drawn_salt, drawn_iv, consumed, sealed.
  destruct (randomBytes IV_LENGTH rng) as [iv rng1]. cbn [fst snd].
  destruct (randomBytes SALT_LENGTH rng1) as [salt rng2]. cbn [fst snd].
  destruct (deriveKey K salt) as [dk|e] eqn:Hdk; [|discriminate].
  cbn [mbind result_bind].
  unfold createCipheriv, check_key_iv.
  destruct (decide (ALGORITHM = aes_256_gcm)); [|discriminate].
  destruct (decide (length iv = 0)); [discriminate|].
  destruct (decide (length dk = 32)) as [Hk|]; [|discriminate].
  cbn [mbind result_bind]. unfold Cipher_update.
  destruct (Cipher_input text) as [data|e']; [|discriminate].
  unfold Cipher_final, getAuthTag, Buffer_concat.
  cbn [mbind result_bind cipher_key cipher_iv cipher_text concat].
  rewrite app_nil_r. intros [= <- <-].
  exists data, dk. repeat split; assumption || reflexivity.
Qed.

(** A string is a plaintext: the bytes are its UTF-8 form. *)
Lemma encrypt_inv_string `{Runtime} P K rng env rng' :
  encrypt (VString P) K rng = Ok (env, rng') ->
  exists dk,
    deriveKey K (drawn_salt rng) = Ok dk
    /\ length dk = 32
    /\ env = Base64.encode (sealed (UTF8.encode P) dk (drawn_salt rng) (drawn_iv rng))
    /\ rng' = consumed rng.
Proof.
  intros Henc. apply encrypt_inv in Henc as (data & dk & [= <-] & Hrest).
  exists dk. exact Hrest.
Qed.

Lemma encrypt_data_Ok `{Runtime} (text : JSValue JSOther) data K rng dk :
  Cipher_input text = Ok data ->
  deriveKey K (drawn_salt rng) = Ok dk -> length dk = 32 ->
  encrypt text K rng
  = Ok (Base64.encode (sealed data dk (drawn_salt rng) (drawn_iv rng)), consumed rng).
Proof.
  intros Hin Hdk Hlen.
  pose proof (drawn_iv_length rng) as Hiv.
  unfold encrypt, drawn_salt, drawn_iv, consumed, sealed in *.
  destruct (randomBytes IV_LENGTH rng) as [iv rng1]. cbn [fst snd] in *.
  destruct (randomBytes SALT_LENGTH rng1) as [salt rng2]. cbn [fst snd] in *.
  rewrite Hdk. cbn [mbind result_bind].
  unfold createCipheriv, check_key_iv.
  destruct (decide (ALGORITHM = aes_256_gcm)); [|contradiction].
  destruct (decide (length iv = 0)) as [E|]; [rewrite Hiv in E; discriminate|].
  destruct (decide (length dk = 32)); [|contradiction].
  unfold Cipher_update. cbn [mbind result_bind]. rewrite Hin.
  unfold Cipher_final, getAuthTag, Buffer_concat.
  cbn [mbind result_bind cipher_key cipher_iv cipher_text concat].
  rewrite app_nil_r. reflexivity.
Qed.

Lemma encrypt_Ok `{Runtime} P K rng dk :
  deriveKey K (drawn_salt rng) = Ok dk -> length dk = 32 ->
  encrypt (VString P) K rng
  = Ok (Base64.encode (sealed (UTF8.encode P) dk (drawn_salt rng) (drawn_iv rng)),
        consumed rng).
Proof. apply encrypt_data_Ok. reflexivity. Qed.

(** What [open] answers once the key is derived and the cipher accepts the
    key, the initialization vector and the length of the tag. *)
Lemma open_spec buffer K salt iv tag ct dk :
  segments buffer = (salt, iv, tag, ct) ->
  deriveKey K salt = Ok dk -> length dk = 32 -> length iv <> 0 ->
  valid_gcm_tag_length (length tag) = true ->
  open buffer K =
    if decide (take (length tag) (gcm_tag dk iv ct) = tag)
    then Ok (UTF8.decode (gcm_decrypt dk iv ct))
    else Throw IntegrityError.
Proof.
  intros Hseg Hdk Hlen Hiv Htag. unfold open. rewrite Hseg, Hdk.
  cbn [mbind result_bind]. unfold createDecipheriv, check_key_iv.
  destruct (decide (ALGORITHM = aes_256_gcm)); [|contradiction].
  destruct (decide (length iv = 0)); [contradiction|].
  destruct (decide (length dk = 32)); [|contradiction].
  cbn [mbind result_bind]. unfold setAuthTag. cbn [decipher_key decipher_iv decipher_text].
  rewrite Htag. cbn [mbind result_bind]. unfold Decipher_update, Decipher_final.
  cbn [decipher_key decipher_iv decipher_tag decipher_text].
  destruct (decide (take (length tag) (gcm_tag dk iv ct) = tag)); [|reflexivity].
  cbn [mbind result_bind].
  rewrite UTF8Facts.utf8_decode_nil, app_nil_r. reflexivity.
Qed.

Lemma sealed_segments data dk salt iv :
  gcm_tag_full -> length salt = SALT_LENGTH -> length iv = IV_LENGTH ->
  segments (sealed data dk salt iv)
  = (salt, iv, gcm_tag dk iv (gcm_encrypt dk iv data), gcm_encrypt dk iv data).
Proof.
  intros Hfull Hs Hi. unfold sealed. apply segments_envelope; [exact Hs|exact Hi|apply Hfull].
Qed.

End WithCrypto.
End EncryptionFacts.

(** ** The reference cipher obeys the laws *)

Module ReferenceFacts.
Import Reference.
Local Open Scope Z_scope.

Lemma checksum_cons b bs : checksum (b :: bs) = (byte_to_Z b + checksum bs) mod 256.
Proof. reflexivity. Qed.

Lemma checksum_range bs : 0 <= checksum bs < 256.
Proof.
  destruct bs as [|b bs]; [cbv; split; [discriminate|reflexivity]|].
  rewrite checksum_cons. apply Z.mod_pos_bound. lia.
Qed.

Lemma checksum_insert bs (i : nat) b b' :
  bs !! i = Some b -> b' <> b -> checksum (<[i := b']> bs) <> checksum bs.
Proof.
  revert i. induction bs as [|a bs IH]; intros i Hi Hne; [discriminate|].
  destruct i as [|i]; cbn [insert list_insert lookup list_lookup] in *;
    rewrite !checksum_cons.
  - injection Hi as ->.
    assert (byte_to_Z b' <> byte_to_Z b) by (intros E; apply Hne, byte_to_Z_inj, E).
    pose proof (byte_to_Z_range b). pose proof (byte_to_Z_range b').
    pose proof (checksum_range bs).
    generalize dependent (checksum bs). intros. zdiv.
  - specialize (IH i Hi Hne). pose proof (byte_to_Z_range a).
    match goal with
    | |- (_ + checksum ?x) mod _ <> (_ + checksum ?y) mod _ =>
        pose proof (checksum_range x); pose proof (checksum_range y);
        change (checksum x <> checksum y) in IH;
        generalize dependent (checksum x); generalize dependent (checksum y)
    end.
    intros. zdiv.
Qed.

Lemma byte_of_Z_mod_inj x y :
  byte_of_Z x = byte_of_Z y -> x mod 256 = y mod 256.
Proof. intros E. rewrite <- !byte_to_of_Z_mod, E. reflexivity. Qed.

Lemma byte_of_Z_eq_mod z b : z mod 256 = byte_to_Z b -> byte_of_Z z = b.
Proof. intros E. apply byte_to_Z_inj. rewrite byte_to_of_Z_mod. exact E. Qed.

Lemma ref_inverse key iv data : ref_decrypt key iv (ref_encrypt key iv data) = data.
Proof.
  unfold ref_decrypt, ref_encrypt. rewrite <- list_fmap_compose.
  induction data as [|b data IH]; [reflexivity|].
  cbn [fmap list_fmap]. f_equal; [|exact IH].
  cbn [compose]. apply byte_of_Z_eq_mod. rewrite byte_to_of_Z_mod.
  pose proof (byte_to_Z_range b). pose proof (checksum_range (key ++ iv)).
  unfold pad_byte. zdiv.
Qed.

Lemma ref_tag_binds key : gcm_tag_binds key.
Proof.
  intros iv data i b b' Hi Hne E. cbn [gcm_tag crypto] in E. unfold ref_tag in E.
  injection E as E. apply byte_of_Z_mod_inj in E.
  pose proof (checksum_insert data i b b' Hi Hne).
  pose proof (checksum_range data). pose proof (checksum_range (<[i:=b']> data)).
  pose proof (checksum_range (key ++ iv)). unfold pad_byte in E. zdiv.
Qed.

#[export] Instance laws : CryptoLaws.
Proof.
  split.
  - intros password salt. eexists. split; [reflexivity|]. apply length_replicate.
  - exact ref_inverse.
  - intros key iv data. cbn [gcm_tag crypto]. unfold ref_tag.
    cbn [length]. rewrite length_replicate. reflexivity.
Qed.

End ReferenceFacts.

Import EncryptionFacts.

(** ** Envelopes *)

Section EnvelopeTheorems.
Context `{Crypto} `{Runtime}.

Lemma decrypt_sealed data dk salt iv K :
  gcm_tag_full -> length salt = SALT_LENGTH -> length iv = IV_LENGTH ->
  Encryption.deriveKey K salt = Ok dk -> length dk = 32 ->
  Encryption.decrypt (VString (Base64.encode (Encryption.sealed data dk salt iv))) K
  = Ok (UTF8.decode (gcm_decrypt dk iv (gcm_encrypt dk iv data))).
Proof.
  intros Hfull Hs Hi Hdk Hlen. unfold Encryption.decrypt.
  cbn [Buffer_from_base64 mbind result_bind]. rewrite Base64Facts.base64_decode_encode.
  rewrite (open_spec _ _ _ _ _ _ _ (sealed_segments data dk salt iv Hfull Hs Hi) Hdk Hlen).
  - rewrite Hfull. rewrite firstn_all2 by (rewrite Hfull; lia).
    destruct (decide _); [reflexivity|contradiction].
  - rewrite Hi. discriminate.
  - rewrite Hfull. reflexivity.
Qed.

(** Whatever the string, what comes back is the string as UTF-8 carries it. *)
Lemma decrypt_encrypt_transcoded :
  CryptoLaws -> forall P K rng,
  exists env,
    Encryption.encrypt (VString P) K rng = Ok (env, Encryption.consumed rng)
    /\ Encryption.decrypt (VString env) K = Ok (UTF8.decode (UTF8.encode P)).
Proof.
  intros [Hpb Hinv Hfull] P K rng.
  destruct (Hpb K (Encryption.drawn_salt rng)) as (dk & Hdk & Hlen).
  assert (Hdk' : Encryption.deriveKey K (Encryption.drawn_salt rng) = Ok dk)
    by (unfold Encryption.deriveKey; rewrite Hdk; reflexivity).
  eexists. split; [apply (encrypt_Ok P K rng dk Hdk' Hlen)|].
  rewrite (decrypt_sealed (UTF8.encode P) dk _ _ K Hfull (drawn_salt_length rng)
             (drawn_iv_length rng) Hdk' Hlen).
  rewrite Hinv. reflexivity.
Qed.

(** C1, as amended.  On a platform that obeys the laws, for every plaintext
    that is a well-formed UTF-16 string (every surrogate paired), every secret
    and every state of the entropy source, [Encryption.encrypt] returns an
    envelope, drawing a fresh initialization vector and salt, and
    [Encryption.decrypt] of that envelope under the same secret returns the
    plaintext.  The secret may even be empty. *)
Theorem decrypt_encrypt_well_formed :
  CryptoLaws -> forall P K rng,
  UTF8.well_formed P ->
  exists env,
    Encryption.encrypt (VString P) K rng = Ok (env, Encryption.consumed rng)
    /\ Encryption.decrypt (VString env) K = Ok P.
Proof.
  intros [Hpb Hinv Hfull] P K rng HP.
  destruct (Hpb K (Encryption.drawn_salt rng)) as (dk & Hdk & Hlen).
  assert (Hdk' : Encryption.deriveKey K (Encryption.drawn_salt rng) = Ok dk)
    by (unfold Encryption.deriveKey; rewrite Hdk; reflexivity).
  eexists. split; [apply (encrypt_Ok P K rng dk Hdk' Hlen)|].
  rewrite (decrypt_sealed (UTF8.encode P) dk _ _ K Hfull (drawn_salt_length rng)
             (drawn_iv_length rng) Hdk' Hlen).
  rewrite Hinv, UTF8Facts.utf8_decode_encode by exact HP. reflexivity.
Qed.

Lemma envelope_app salt iv tag ct :
  Encryption.envelope salt iv tag ct = salt ++ iv ++ tag ++ ct.
Proof. unfold Encryption.envelope, Buffer_concat. cbn [concat]. rewrite app_nil_r. reflexivity. Qed.

(** A byte of the envelope past the salt and the initialization vector lies
    in the tag or in the ciphertext, and replacing it replaces it there. *)
Lemma envelope_tampered salt iv tag ct (i : nat) b b' :
  length salt = SALT_LENGTH -> length iv = IV_LENGTH ->
  SALT_LENGTH + IV_LENGTH <= i ->
  Encryption.envelope salt iv tag ct !! i = Some b ->
  (exists j, tag !! j = Some b
     /\ <[i := b']> (Encryption.envelope salt iv tag ct)
        = Encryption.envelope salt iv (<[j := b']> tag) ct)
  \/ (exists j, ct !! j = Some b
     /\ <[i := b']> (Encryption.envelope salt iv tag ct)
        = Encryption.envelope salt iv tag (<[j := b']> ct)).
Proof.
  intros Hs Hi Hle. rewrite !envelope_app.
  unfold SALT_LENGTH, IV_LENGTH in *.
  rewrite lookup_app_r, insert_app_r_alt by lia.
  rewrite lookup_app_r, insert_app_r_alt by lia.
  destruct (decide (i - length salt - length iv < length tag)) as [Hlt|Hge].
  - rewrite lookup_app_l, insert_app_l by exact Hlt. intros Hb.
    left. eexists. split; [exact Hb|]. rewrite envelope_app. reflexivity.
  - rewrite lookup_app_r, insert_app_r_alt by lia. intros Hb.
    right. eexists. split; [exact Hb|]. rewrite envelope_app. reflexivity.
Qed.

(** C2.  Take an envelope that [Encryption.encrypt] produced under a secret,
    and let the tag of the cipher, under the key derived for this envelope, tell
    a ciphertext from each one that differs from it in one byte.  Then replacing
    any one byte of the decoded envelope at an offset past the salt and the
    initialization vector, that is a byte of the AuthTag or of the Ciphertext
    segment, by a different byte makes [Encryption.decrypt] under the same
    secret fail with IntegrityError: no plaintext is returned. *)
Theorem tampered_envelope_rejected :
  gcm_tag_full -> forall text K rng env rng' dk (i : nat) b b',
  Encryption.encrypt text K rng = Ok (env, rng') ->
  Encryption.deriveKey K (Encryption.drawn_salt rng) = Ok dk ->
  gcm_tag_binds dk ->
  SALT_LENGTH + IV_LENGTH <= i ->
  Base64.decode env !! i = Some b -> b' <> b ->
  Encryption.decrypt (VString (Base64.encode (<[i := b']> (Base64.decode env)))) K
  = Throw IntegrityError.
Proof.
  intros Hfull text K rng env rng' dk i b b' Henc Hdk Hbinds Hle Hb Hne.
  apply encrypt_inv in Henc as (data & dk' & _ & Hdk' & Hlen & -> & ->).
  rewrite Hdk in Hdk'. injection Hdk' as <-.
  rewrite Base64Facts.base64_decode_encode in *.
  pose proof (drawn_salt_length rng) as Hs. pose proof (drawn_iv_length rng) as Hi.
  unfold Encryption.sealed in *.
  set (ct := gcm_encrypt dk _ _) in *. set (tag := gcm_tag dk _ ct) in *.
  assert (Htag : length tag = 16) by apply Hfull.
  unfold Encryption.decrypt. cbn [Buffer_from_base64 mbind result_bind].
  rewrite Base64Facts.base64_decode_encode.
  destruct (envelope_tampered _ _ _ _ i b b' Hs Hi Hle Hb)
    as [(j & Hj & ->)|(j & Hj & ->)].
  - rewrite (open_spec _ K (Encryption.drawn_salt rng) (Encryption.drawn_iv rng)
               (<[j:=b']> tag) ct dk); [| |exact Hdk|exact Hlen| |].
    + rewrite length_insert, Htag. fold tag.
      rewrite firstn_all2 by lia.
      destruct (decide (tag = <[j:=b']> tag)) as [E|]; [|reflexivity].
      exfalso. apply Hne. apply (f_equal (fun l => l !! j)) in E.
      rewrite list_lookup_insert_eq in E by (apply lookup_lt_Some in Hj; exact Hj).
      congruence.
    + apply segments_envelope; [exact Hs|exact Hi|].
      rewrite length_insert. exact Htag.
    + rewrite Hi. discriminate.
    + rewrite length_insert, Htag. reflexivity.
  - rewrite (open_spec _ K (Encryption.drawn_salt rng) (Encryption.drawn_iv rng)
               tag (<[j:=b']> ct) dk); [| |exact Hdk|exact Hlen| |].
    + rewrite Htag. rewrite firstn_all2 by (rewrite Hfull; lia).
      destruct (decide _) as [E|]; [|reflexivity].
      exfalso. exact (Hbinds _ _ _ _ _ Hj Hne E).
    + apply segments_envelope; [exact Hs|exact Hi|exact Htag].
    + rewrite Hi. discriminate.
    + rewrite Htag. reflexivity.
Qed.

Lemma slice_salt salt rest :
  length salt = SALT_LENGTH -> Buffer_slice (salt ++ rest) 0 SALT_LENGTH = salt.
Proof.
  intros Hs. unfold Buffer_slice. rewrite drop_0, Nat.sub_0_r.
  apply take_app_length'. symmetry. exact Hs.
Qed.

(** What [Encryption.decrypt] computes from a text that decodes to at least
    64 + 16 + 16 bytes: the key is derived from the first 64 bytes, the next
    16 are the initialization vector of the decipher, the next 16 the tag that
    the received bytes are checked against, and what follows is decrypted. *)
Lemma decrypt_reads s K salt iv tag ct :
  gcm_tag_full ->
  Base64.decode s = salt ++ iv ++ tag ++ ct ->
  length salt = 64 -> length iv = 16 -> length tag = 16 ->
  Encryption.decrypt (VString s) K =
    match pbkdf2 K salt ITERATIONS KEY_LENGTH "sha512" with
    | None => Throw KeyDerivationError
    | Some dk =>
        if decide (length dk = 32) then
          if decide (gcm_tag dk iv ct = tag)
          then Ok (UTF8.decode (gcm_decrypt dk iv ct))
          else Throw IntegrityError
        else Throw InvalidKeyLength
    end.
Proof.
  intros Hfull Hs Hsalt Hiv Htag. unfold Encryption.decrypt.
  cbn [Buffer_from_base64 mbind result_bind]. rewrite Hs, <- envelope_app.
  pose proof (segments_envelope salt iv tag ct Hsalt Hiv Htag) as Hseg.
  destruct (pbkdf2 K salt ITERATIONS KEY_LENGTH "sha512") as [dk|] eqn:Hpb.
  - assert (Hdk : Encryption.deriveKey K salt = Ok dk)
      by (unfold Encryption.deriveKey; rewrite Hpb; reflexivity).
    destruct (decide (length dk = 32)) as [Hlen|Hlen].
    + rewrite (open_spec _ K salt iv tag ct dk Hseg Hdk Hlen).
      * rewrite Htag, firstn_all2 by (rewrite Hfull; lia). reflexivity.
      * rewrite Hiv. discriminate.
      * rewrite Htag. reflexivity.
    + unfold Encryption.open. rewrite Hseg, Hdk. cbn [mbind result_bind].
      unfold createDecipheriv, check_key_iv.
      destruct (decide (ALGORITHM = aes_256_gcm)); [|contradiction].
      destruct (decide (length iv = 0)) as [E|]; [rewrite Hiv in E; discriminate|].
      destruct (decide (length dk = 32)); [contradiction|reflexivity].
  - unfold Encryption.open. rewrite Hseg. unfold Encryption.deriveKey. rewrite Hpb.
    reflexivity.
Qed.

(** C4.  Every envelope that [Encryption.encrypt] produces decodes to the
    concatenation of the salt drawn (bytes 0 to 64), the initialization vector
    drawn (bytes 64 to 80), the tag of the ciphertext (bytes 80 to 96) and the
    ciphertext (bytes 96 to the end).  [Encryption.decrypt] reads a text at
    these offsets: whenever the text decodes to four such segments, the key is
    derived from the first, the decipher is given the second as initialization
    vector, the third is the tag that the fourth is checked against, and the
    fourth is what is decrypted. *)
Theorem envelope_layout :
  gcm_tag_full -> forall text K rng env rng',
  Encryption.encrypt text K rng = Ok (env, rng') ->
  (exists data dk tag ct,
     let salt := Encryption.drawn_salt rng in
     let iv := Encryption.drawn_iv rng in
     let buffer := Base64.decode env in
     Cipher_input text = Ok data
     /\ Encryption.deriveKey K salt = Ok dk
     /\ ct = gcm_encrypt dk iv data
     /\ tag = gcm_tag dk iv ct
     /\ buffer = salt ++ iv ++ tag ++ ct
     /\ length salt = 64 /\ length iv = 16 /\ length tag = 16
     /\ Buffer_slice buffer 0 64 = salt
     /\ Buffer_slice buffer 64 80 = iv
     /\ Buffer_slice buffer 80 96 = tag
     /\ Buffer_slice_from buffer 96 = ct)
  /\ (forall s K' salt iv tag ct,
        Base64.decode s = salt ++ iv ++ tag ++ ct ->
        length salt = 64 -> length iv = 16 -> length tag = 16 ->
        Encryption.decrypt (VString s) K' =
          match pbkdf2 K' salt ITERATIONS KEY_LENGTH "sha512" with
          | None => Throw KeyDerivationError
          | Some dk =>
              if decide (length dk = 32) then
                if decide (gcm_tag dk iv ct = tag)
                then Ok (UTF8.decode (gcm_decrypt dk iv ct))
                else Throw IntegrityError
              else Throw InvalidKeyLength
          end).
Proof.
  intros Hfull text K rng env rng' Henc.
  split; [|intros s K' salt iv tag ct; apply decrypt_reads; exact Hfull].
  apply encrypt_inv in Henc as (data & dk & Hin & Hdk & Hlen & -> & ->).
  exists data, dk. eexists _, _. cbv zeta.
  rewrite Base64Facts.base64_decode_encode.
  pose proof (drawn_salt_length rng) as Hs. pose proof (drawn_iv_length rng) as Hi.
  pose proof (sealed_segments data dk _ _ Hfull Hs Hi) as Hseg.
  assert (Ht : length (gcm_tag dk (Encryption.drawn_iv rng)
                         (gcm_encrypt dk (Encryption.drawn_iv rng) data)) = 16)
    by apply Hfull.
  pose proof (f_equal (fun t => fst (fst (fst t))) Hseg) as H1.
  pose proof (f_equal (fun t => snd (fst (fst t))) Hseg) as H2.
  pose proof (f_equal (fun t => snd (fst t)) Hseg) as H3.
  pose proof (f_equal snd Hseg) as H4.
  split; [exact Hin|]. split; [exact Hdk|]. split; [reflexivity|].
  split; [reflexivity|]. split; [apply envelope_app|].
  split; [exact Hs|]. split; [exact Hi|]. split; [exact Ht|].
  split; [exact H1|]. split; [exact H2|]. split; [exact H3|]. exact H4.
Qed.

(** C5, as amended.  [Encryption.decrypt] checks no length and knows no
    MalformedEnvelope.  For an input whose decoded length [n] is below
    64 + 16 + 16 and such that [n - 80] is no tag length of GCM (so for every
    [n] below 84) it fails and returns no plaintext; the error is the one of
    the call that refuses the truncated segment, or of the key derivation. *)
Theorem short_envelope_rejected : forall s K,
  length (Base64.decode s) < SALT_LENGTH + IV_LENGTH + TAG_LENGTH ->
  valid_gcm_tag_length (length (Base64.decode s) - (SALT_LENGTH + IV_LENGTH)) = false ->
  exists e,
    Encryption.decrypt (VString s) K = Throw e
    /\ e ∈ [KeyDerivationError; InvalidIV; InvalidKeyLength; InvalidAuthTag].
Proof.
  intros s K Hshort Htag. unfold Encryption.decrypt.
  cbn [Buffer_from_base64 mbind result_bind].
  generalize dependent (Base64.decode s). intros buffer Hshort Htag.
  unfold Encryption.open, Encryption.segments.
  destruct (Encryption.deriveKey K _) as [dk|e] eqn:Hdk; cbn [mbind result_bind].
  2:{ exists e. split; [reflexivity|].
      unfold Encryption.deriveKey in Hdk. destruct (pbkdf2 _ _ _ _ _); [discriminate|].
      injection Hdk as <-. set_solver. }
  unfold createDecipheriv, check_key_iv.
  destruct (decide (ALGORITHM = aes_256_gcm)); [|contradiction].
  destruct (decide (length _ = 0)); cbn [mbind result_bind].
  { eexists. split; [reflexivity|set_solver]. }
  destruct (decide (length dk = 32)); cbn [mbind result_bind].
  2:{ eexists. split; [reflexivity|set_solver]. }
  unfold setAuthTag.
  replace (length (Buffer_slice buffer (SALT_LENGTH + IV_LENGTH)
                     (SALT_LENGTH + IV_LENGTH + TAG_LENGTH)))
    with (length buffer - (SALT_LENGTH + IV_LENGTH)).
  2:{ unfold Buffer_slice. rewrite length_take, length_drop.
      unfold SALT_LENGTH, IV_LENGTH, TAG_LENGTH in *. lia. }
  rewrite Htag. cbn [mbind result_bind].
  eexists. split; [reflexivity|set_solver].
Qed.

(** C6.  Two successive calls of [Encryption.encrypt] on the same plaintext
    and secret, the second drawing from the entropy the first one left, return
    different envelope strings whenever the (salt, initialization vector)
    pairs they draw differ. *)
Theorem fresh_draw_fresh_envelope : forall text K rng env1 rng1 env2 rng2,
  Encryption.encrypt text K rng = Ok (env1, rng1) ->
  Encryption.encrypt text K rng1 = Ok (env2, rng2) ->
  (Encryption.drawn_salt rng, Encryption.drawn_iv rng)
    <> (Encryption.drawn_salt rng1, Encryption.drawn_iv rng1) ->
  env1 <> env2.
Proof.
  intros text K rng env1 rng1 env2 rng2 H1 H2 Hfresh Heq.
  apply encrypt_inv in H1 as (data1 & dk1 & _ & _ & _ & -> & _).
  apply encrypt_inv in H2 as (data2 & dk2 & _ & _ & _ & -> & _).
  apply Base64Facts.base64_encode_inj in Heq. unfold Encryption.sealed in Heq.
  rewrite !envelope_app in Heq.
  apply app_inj_1 in Heq as [Hs Heq];
    [|rewrite !drawn_salt_length; reflexivity].
  apply app_inj_1 in Heq as [Hi _];
    [|rewrite !drawn_iv_length; reflexivity].
  apply Hfresh. rewrite Hs, Hi. reflexivity.
Qed.


(** C8, as amended.  [Encryption.deriveKey] validates nothing: for every
    secret, the empty one included, and every salt, of whatever length, it
    returns the key that PBKDF2 yields for them (100000 iterations, 32 bytes,
    sha512), and it fails, with KeyDerivationError, exactly when the primitive
    itself reports an error. *)
Theorem deriveKey_forwards : forall key salt,
  (forall dk, Encryption.deriveKey key salt = Ok dk
              <-> pbkdf2 key salt ITERATIONS KEY_LENGTH "sha512" = Some dk)
  /\ (forall e, Encryption.deriveKey key salt = Throw e
               <-> e = KeyDerivationError
                   /\ pbkdf2 key salt ITERATIONS KEY_LENGTH "sha512" = None).
Proof.
  intros key salt. unfold Encryption.deriveKey.
  destruct (pbkdf2 key salt ITERATIONS KEY_LENGTH "sha512") as [dk0|]; split.
  - intros dk. split; intros [= ->]; reflexivity.
  - intros e. split; [discriminate|intros [_ [=]]].
  - intros dk. split; discriminate.
  - intros e. split; [intros [= <-]; split; reflexivity|intros [-> _]; reflexivity].
Qed.

End EnvelopeTheorems.


(** ** An envelope cut short *)

Section Truncation.
Context `{Crypto} `{Runtime}.

(** The envelope of the empty string, cut after the first twelve bytes of its
    tag, is taken for a whole envelope. *)
Lemma cut_envelope_accepted :
  CryptoLaws -> gcm_keeps_length -> forall K rng env rng',
  Encryption.encrypt (VString []) K rng = Ok (env, rng') ->
  length (take 92 (Base64.decode env)) = 92
  /\ Encryption.decrypt (VString (Base64.encode (take 92 (Base64.decode env)))) K
     = Ok [].
Proof.
  intros [Hpb Hinv Hfull] Hlen K rng env rng' Henc.
  apply encrypt_inv in Henc as (P & dk & [= <-] & Hdk & Hk & -> & ->).
  rewrite Base64Facts.base64_decode_encode. unfold Encryption.sealed.
  change (UTF8.encode []) with (@nil byte).
  pose proof (Hlen dk (Encryption.drawn_iv rng) []) as Hct.
  apply nil_length_inv in Hct. rewrite Hct.
  pose proof (drawn_salt_length rng) as Hs. pose proof (drawn_iv_length rng) as Hi.
  set (tag := gcm_tag dk (Encryption.drawn_iv rng) []).
  assert (Ht : length tag = 16) by apply Hfull.
  rewrite envelope_app, app_nil_r.
  assert (Hcut : take 92 (Encryption.drawn_salt rng ++ Encryption.drawn_iv rng ++ tag)
                 = Encryption.drawn_salt rng ++ Encryption.drawn_iv rng ++ take 12 tag).
  { change 92 with (SALT_LENGTH + (IV_LENGTH + 12)).
    rewrite take_app_add' by (symmetry; exact Hs).
    rewrite take_app_add' by (symmetry; exact Hi). reflexivity. }
  rewrite Hcut. split.
  { rewrite !length_app, length_take, Hs, Hi, Ht. reflexivity. }
  unfold Encryption.decrypt. cbn [Buffer_from_base64 mbind result_bind].
  rewrite Base64Facts.base64_decode_encode.
  rewrite (open_spec _ K (Encryption.drawn_salt rng) (Encryption.drawn_iv rng)
             (take 12 tag) [] dk); [| |exact Hdk|exact Hk| |].
  - rewrite length_take, Ht. change (12 `min` 16) with 12. fold tag.
    destruct (decide (take 12 tag = take 12 tag)); [|contradiction].
    pose proof (Hinv dk (Encryption.drawn_iv rng) []) as Hd. rewrite Hct in Hd.
    rewrite Hd. reflexivity.
  - rewrite <- (app_nil_r (take 12 tag)) at 1.
    rewrite <- envelope_app.
    unfold Encryption.segments, Buffer_slice, Buffer_slice_from. rewrite envelope_app.
    rewrite drop_0, Nat.sub_0_r.
    rewrite (take_app_length' (Encryption.drawn_salt rng)) by (symmetry; exact Hs).
    rewrite (drop_app_length' (Encryption.drawn_salt rng)) by (symmetry; exact Hs).
    replace (SALT_LENGTH + IV_LENGTH - SALT_LENGTH) with IV_LENGTH by reflexivity.
    rewrite (take_app_length' (Encryption.drawn_iv rng)) by (symmetry; exact Hi).
    rewrite (drop_app_add' (Encryption.drawn_salt rng)) by (symmetry; exact Hs).
    rewrite (drop_app_length' (Encryption.drawn_iv rng)) by (symmetry; exact Hi).
    change (SALT_LENGTH + IV_LENGTH + TAG_LENGTH)
      with (SALT_LENGTH + (IV_LENGTH + TAG_LENGTH)) at 2.
    rewrite (drop_app_add' (Encryption.drawn_salt rng)) by (symmetry; exact Hs).
    rewrite (drop_app_add' (Encryption.drawn_iv rng)) by (symmetry; exact Hi).
    rewrite app_nil_r.
    rewrite take_ge, drop_ge by (rewrite length_take, Ht; unfold TAG_LENGTH, SALT_LENGTH, IV_LENGTH; lia).
    reflexivity.
  - rewrite Hi. discriminate.
  - rewrite length_take, Ht. reflexivity.
Qed.

End Truncation.


(** ** Patient records *)

Section PatientTheorems.
Context `{Crypto} `{Runtime}.
Variable KEY : jsstring.

Lemma get_Some (p : gmap string (JSValue JSOther)) k v :
  p !! k = Some v -> Patient.get p k = v.
Proof. intros E. unfold Patient.get. rewrite E. reflexivity. Qed.

Lemma get_None (p : gmap string (JSValue JSOther)) k :
  p !! k = None -> Patient.get p k = VUndefined.
Proof. intros E. unfold Patient.get. rewrite E. reflexivity. Qed.

Lemma patient_encrypt_inv (p p' : gmap string (JSValue JSOther)) rng rng' :
  Patient.encrypt KEY p rng = Ok (p', rng') ->
  exists e1 e2,
    p' = <["medicalHistory" := VString e2]> (<["ssn" := VString e1]> p).
Proof.
  unfold Patient.encrypt.
  destruct (Encryption.encrypt (Patient.get p "ssn") KEY rng) as [[e1 rng1]|]; [|discriminate].
  cbn [mbind result_bind].
  destruct (JSON_stringify _) as [text|]; [|discriminate]. cbn [mbind result_bind].
  destruct (Encryption.encrypt text KEY rng1) as [[e2 rng2]|]; [|discriminate].
  cbn [mbind result_bind]. intros [= <- <-]. exists e1, e2. reflexivity.
Qed.

Lemma patient_decrypt_inv (p p' : gmap string (JSValue JSOther)) :
  Patient.decrypt KEY p = Ok p' ->
  exists s v, p' = <["medicalHistory" := v]> (<["ssn" := VString s]> p).
Proof.
  unfold Patient.decrypt.
  destruct (Encryption.decrypt (Patient.get p "ssn") KEY) as [s|]; [|discriminate].
  cbn [mbind result_bind].
  destruct (Encryption.decrypt (Patient.get p "medicalHistory") KEY) as [t|]; [|discriminate].
  cbn [mbind result_bind].
  destruct (JSON_parse t) as [v|]; [|discriminate].
  cbn [mbind result_bind]. intros [= <-]. exists s, v. reflexivity.
Qed.

Lemma frame_two (p : gmap string (JSValue JSOther)) a b k :
  k <> "ssn" -> k <> "medicalHistory" ->
  (<["medicalHistory" := b]> (<["ssn" := a]> p)) !! k = p !! k.
Proof. intros H1 H2. rewrite !lookup_insert_ne by congruence. reflexivity. Qed.

(** C10, as amended.  Whenever [Patient.encrypt] returns a record, it differs
    from the one given in the fields ssn and medicalHistory only, which hold
    envelopes; whenever [Patient.decrypt] returns a record, it differs from
    the one given in these two fields only; and for a record whose ssn is a
    well-formed string and whose medicalHistory is serialised by
    [JSON.stringify] to a well-formed text that [JSON.parse] reads back as the
    same value, [Patient.decrypt] of [Patient.encrypt] of the record is the
    record. *)
Theorem patient_fields_framed :
  CryptoLaws -> forall (p : gmap string (JSValue JSOther)) rng,
  (forall p' rng', Patient.encrypt KEY p rng = Ok (p', rng') ->
     (forall k, k <> "ssn" -> k <> "medicalHistory" -> p' !! k = p !! k)
     /\ exists e1 e2, p' !! "ssn" = Some (VString e1)
                      /\ p' !! "medicalHistory" = Some (VString e2))
  /\ (forall p', Patient.decrypt KEY p = Ok p' ->
        forall k, k <> "ssn" -> k <> "medicalHistory" -> p' !! k = p !! k)
  /\ (forall ssn history text,
        p !! "ssn" = Some (VString ssn) -> UTF8.well_formed ssn ->
        p !! "medicalHistory" = Some history ->
        JSON_stringify history = Ok (VString text) -> UTF8.well_formed text ->
        JSON_parse text = Ok history ->
        exists p' rng',
          Patient.encrypt KEY p rng = Ok (p', rng')
          /\ Patient.decrypt KEY p' = Ok p).
Proof.
  intros Hlaws p rng. split; [|split].
  - intros p' rng' Henc. apply patient_encrypt_inv in Henc as (e1 & e2 & ->).
    split; [intros k; apply frame_two|].
    exists e1, e2. split.
    + rewrite lookup_insert_ne by discriminate. apply lookup_insert_eq.
    + apply lookup_insert_eq.
  - intros p' Hdec. apply patient_decrypt_inv in Hdec as (s & v & ->).
    intros k. apply frame_two.
  - intros ssn history text Hssn Hwf Hhist Hstr Hwft Hparse.
    destruct (decrypt_encrypt_transcoded Hlaws ssn KEY rng) as (e1 & He1 & Hd1).
    destruct (decrypt_encrypt_transcoded Hlaws text KEY (Encryption.consumed rng))
      as (e2 & He2 & Hd2).
    rewrite UTF8Facts.utf8_decode_encode in Hd1 by exact Hwf.
    rewrite UTF8Facts.utf8_decode_encode in Hd2 by exact Hwft.
    eexists _, _. split.
    + unfold Patient.encrypt. rewrite (get_Some _ _ _ Hssn), (get_Some _ _ _ Hhist).
      rewrite He1. cbn [mbind result_bind]. rewrite Hstr. cbn [mbind result_bind].
      rewrite He2. cbn [mbind result_bind]. reflexivity.
    + unfold Patient.decrypt.
      rewrite (get_Some _ "ssn" (VString e1)), (get_Some _ "medicalHistory" (VString e2));
        [| apply lookup_insert_eq
         | rewrite lookup_insert_ne by discriminate; apply lookup_insert_eq].
      rewrite Hd1. cbn [mbind result_bind].
      rewrite Hd2. cbn [mbind result_bind]. rewrite Hparse. cbn [mbind result_bind].
      f_equal. apply map_eq. intros k.
      destruct (decide (k = "medicalHistory")) as [->|Hk1].
      { rewrite lookup_insert_eq. symmetry. exact Hhist. }
      rewrite lookup_insert_ne by congruence.
      destruct (decide (k = "ssn")) as [->|Hk2].
      { rewrite lookup_insert_eq. symmetry. exact Hssn. }
      rewrite !lookup_insert_ne by congruence. reflexivity.
Qed.

(** A record without a serialisable history is refused. *)
Lemma patient_without_history (p : gmap string (JSValue JSOther)) rng :
  p !! "medicalHistory" = None -> JSON_stringify VUndefined = Ok VUndefined ->
  exists e, Patient.encrypt KEY p rng = Throw e.
Proof.
  intros Hnone Hundef. unfold Patient.encrypt. rewrite (get_None _ _ Hnone).
  destruct (Encryption.encrypt (Patient.get p "ssn") KEY rng) as [[e1 rng1]|e];
    cbn [mbind result_bind]; [|eexists; reflexivity].
  rewrite Hundef. cbn [mbind result_bind].
  destruct (Encryption.encrypt VUndefined KEY rng1) as [[e2 rng2]|e] eqn:E;
    cbn [mbind result_bind]; [|eexists; reflexivity].
  apply encrypt_inv in E as (P & dk & [=] & _).
Qed.

End PatientTheorems.

(** ** Access control *)

Lemma rolePermissions_lookup role granted :
  rolePermissions !! role = Some granted <->
  (role = "admin" /\ granted = Object_values permissions)
  \/ (role = "doctor"
      /\ granted = ["read:patient"; "write:patient"; "read:record"; "write:record"])
  \/ (role = "nurse" /\ granted = ["read:patient"; "read:record"; "write:record"])
  \/ (role = "patient" /\ granted = ["read:record"]).
Proof.
  unfold rolePermissions. cbn [list_to_map foldr uncurry fst snd].
  change (member roles "ADMIN") with "admin".
  change (member roles "DOCTOR") with "doctor".
  change (member roles "NURSE") with "nurse".
  change (member roles "PATIENT") with "patient".
  change (member permissions "READ_PATIENT") with "read:patient".
  change (member permissions "WRITE_PATIENT") with "write:patient".
  change (member permissions "READ_RECORD") with "read:record".
  change (member permissions "WRITE_RECORD") with "write:record".
  rewrite !lookup_insert_Some, lookup_empty. intuition congruence.
Qed.

(** C3.  [authorize] answers true exactly when the permission belongs to the
    list that [rolePermissions] maps the role of the principal to; for the role
    admin it answers true for every permission defined; for the role patient
    it answers true for read:record only, so not for write:record. *)
Theorem authorize_iff_granted :
  (forall role permission,
     authorize (principal role) permission = true
     <-> exists granted, rolePermissions !! role = Some granted /\ permission ∈ granted)
  /\ (forall permission,
        permission ∈ Object_values permissions ->
        authorize (principal "admin") permission = true)
  /\ (forall permission,
        authorize (principal "patient") permission = true <-> permission = "read:record")
  /\ authorize (principal "patient") "write:record" = false
  /\ authorize (principal "patient") "read:record" = true.
Proof.
  assert (Hiff : forall role permission,
     authorize (principal role) permission = true
     <-> exists granted, rolePermissions !! role = Some granted /\ permission ∈ granted).
  { intros role permission. unfold authorize, checkPermission, get_property.
    cbn [req_user user_role principal].
    destruct (rolePermissions !! role) as [granted|].
    - rewrite bool_decide_eq_true. case_bool_decide as Hin.
      + split; [intros _; exists granted; split; [reflexivity|exact Hin]|reflexivity].
      + split; [discriminate|]. intros (g & [= <-] & Hg). contradiction.
    - rewrite bool_decide_eq_true.
      split; [|intros (g & [=] & _)].
      case_bool_decide; discriminate. }
  split; [exact Hiff|]. split; [|split; [|split]].
  - intros permission Hin. apply Hiff. exists (Object_values permissions).
    split; [reflexivity|exact Hin].
  - intros permission. rewrite Hiff. split.
    + intros (g & Hg & Hin). apply rolePermissions_lookup in Hg.
      destruct Hg as [[[=] _]|[[[=] _]|[[[=] _]|[_ ->]]]].
      apply list_elem_of_singleton in Hin. exact Hin.
    + intros ->. exists ["read:record"]. split; [reflexivity|apply list_elem_of_singleton; reflexivity].
  - reflexivity.
  - reflexivity.
Qed.

(** C9.  For the role "constructor", which is none of the four roles of the
    table, the check neither lets the request pass nor denies it: the lookup
    finds the property inherited from [Object.prototype], and calling its
    missing [includes] raises a TypeError. *)
Theorem inherited_role_raises : forall permission,
  checkPermission permission (request "constructor") = Raise TypeError.
Proof. intros permission. reflexivity. Qed.

(** X1.  A role that is neither in the table nor a name inherited from
    [Object.prototype] is denied. *)
Lemma unknown_role_denied role permission :
  role ∉ ["admin"; "doctor"; "nurse"; "patient"] -> role ∉ Object_prototype ->
  checkPermission permission (request role) = Respond 403 "Insufficient permissions".
Proof.
  intros Hrole Hproto. unfold checkPermission, get_property.
  cbn [req_user user_role request principal].
  destruct (rolePermissions !! role) as [granted|] eqn:E.
  - exfalso. apply Hrole. apply rolePermissions_lookup in E.
    destruct E as [[-> _]|[[-> _]|[[-> _]|[-> _]]]]; set_solver.
  - rewrite bool_decide_eq_false_2 by exact Hproto. reflexivity.
Qed.

(** Every name inherited from [Object.prototype] raises in the same way. *)
Lemma inherited_role_outcome role permission :
  role ∈ Object_prototype ->
  checkPermission permission (request role) = Raise TypeError.
Proof.
  intros Hin. unfold checkPermission, get_property.
  cbn [req_user user_role request principal].
  destruct (rolePermissions !! role) as [granted|] eqn:E.
  - exfalso. apply rolePermissions_lookup in E.
    destruct E as [[-> _]|[[-> _]|[[-> _]|[-> _]]]]; revert Hin; compute_done.
  - rewrite bool_decide_eq_true_2 by exact Hin. reflexivity.
Qed.

(** ** The theorems at work on the reference instance *)

Module Examples.
Import Reference ReferenceFacts.

Lemma ref_keeps_length : gcm_keeps_length.
Proof. intros key iv data. apply length_fmap. Qed.

Lemma ref_tag_full : gcm_tag_full.
Proof. apply laws. Qed.

(** Under the reference cipher every derivation succeeds. *)
Lemma ref_deriveKey K salt :
  exists dk, Encryption.deriveKey K salt = Ok dk /\ length dk = 32.
Proof.
  destruct (law_pbkdf2 (CryptoLaws := laws) K salt) as (dk & E & Hlen).
  exists dk. unfold Encryption.deriveKey. rewrite E. split; [reflexivity|exact Hlen].
Qed.

Lemma ref_encrypt_Ok P K rng :
  exists env, Encryption.encrypt (VString P) K rng = Ok (env, Encryption.consumed rng).
Proof.
  destruct (ref_deriveKey K (Encryption.drawn_salt rng)) as (dk & Hdk & Hlen).
  eexists. apply (encrypt_Ok P K rng dk Hdk Hlen).
Qed.

(** The round trip of a social security number under the reference cipher. *)
Lemma decrypt_encrypt_well_formed_witness :
  exists env,
    Encryption.encrypt (VString ssn) secret counting
      = Ok (env, Encryption.consumed counting)
    /\ Encryption.decrypt (VString env) secret = Ok ssn.
Proof.
  exact (decrypt_encrypt_well_formed laws ssn secret counting
           (UTF8Facts.well_formed_js _)).
Defined.

(** A plaintext that is one unpaired surrogate is encrypted, and decrypted to
    U+FFFD, not to itself. *)
Lemma lone_surrogate_not_restored :
  exists env,
    Encryption.encrypt (VString [0xD800%Z]) secret counting
      = Ok (env, Encryption.consumed counting)
    /\ Encryption.decrypt (VString env) secret = Ok [0xFFFD%Z]
    /\ [0xFFFD%Z] <> [0xD800%Z].
Proof.
  destruct (decrypt_encrypt_transcoded laws [0xD800%Z] secret counting)
    as (env & Henc & Hdec).
  exists env. split; [exact Henc|]. split; [|discriminate].
  rewrite Hdec, UTF8Facts.lone_surrogate. reflexivity.
Qed.

Lemma encrypt_reference P :
  Encryption.encrypt (VString P) secret counting
  = Ok (envelope_of P, Encryption.consumed counting).
Proof.
  destruct (ref_encrypt_Ok P secret counting) as (env & E).
  unfold envelope_of. rewrite E. reflexivity.
Qed.

(** A byte of the ciphertext of an envelope is overwritten, and the envelope is
    refused. *)
Lemma tampered_envelope_rejected_witness :
  Encryption.encrypt (VString ssn) secret counting
    = Ok (envelope_of ssn, Encryption.consumed counting)
  /\ Encryption.decrypt
       (VString (Base64.encode (<[100 := x00]> (Base64.decode (envelope_of ssn)))))
       secret
     = Throw IntegrityError.
Proof.
  split; [apply encrypt_reference|].
  eapply (tampered_envelope_rejected ref_tag_full _ secret counting).
  - apply encrypt_reference.
  - vm_compute. reflexivity.
  - apply ref_tag_binds.
  - vm_compute. lia.
  - vm_compute. reflexivity.
  - discriminate.
Defined.

(** The layout of an envelope of the reference cipher, and what [decrypt]
    makes of its four segments. *)
Lemma envelope_layout_witness :
  Encryption.encrypt (VString ssn) secret counting
    = Ok (envelope_of ssn, Encryption.consumed counting)
  /\ exists dk tag ct,
       Base64.decode (envelope_of ssn)
         = Encryption.drawn_salt counting ++ Encryption.drawn_iv counting ++ tag ++ ct
       /\ length tag = 16
       /\ pbkdf2 secret (Encryption.drawn_salt counting) ITERATIONS KEY_LENGTH "sha512"
          = Some dk
       /\ Encryption.decrypt (VString (envelope_of ssn)) secret
          = if decide (gcm_tag dk (Encryption.drawn_iv counting) ct = tag)
            then Ok (UTF8.decode (gcm_decrypt dk (Encryption.drawn_iv counting) ct))
            else Throw IntegrityError.
Proof.
  split; [apply encrypt_reference|].
  destruct (envelope_layout ref_tag_full _ secret counting _ _ (encrypt_reference ssn))
    as [(data & dk & tag & ct & _ & _ & _ & _ & Hb & Hs & Hi & Ht & _) Hread].
  eexists _, tag, ct. split; [exact Hb|]. split; [exact Ht|].
  split; [reflexivity|].
  rewrite (Hread _ secret _ _ _ _ Hb Hs Hi Ht). reflexivity.
Defined.

(** An input that decodes to 92 bytes, less than 64 + 16 + 16, is decrypted
    to the empty string: no error at all. *)
Lemma cut_envelope_decrypts :
  length (Base64.decode cut_envelope) < SALT_LENGTH + IV_LENGTH + TAG_LENGTH
  /\ Encryption.decrypt (VString cut_envelope) secret = Ok [].
Proof.
  destruct (cut_envelope_accepted laws ref_keeps_length secret counting _ _
              (encrypt_reference [])) as [Hlen Hdec].
  unfold cut_envelope. rewrite Base64Facts.base64_decode_encode, Hlen.
  split; [vm_compute; lia|exact Hdec].
Qed.

(** An input that decodes to three bytes is refused. *)
Lemma short_envelope_rejected_witness :
  exists e,
    Encryption.decrypt (VString (js "QUJD")) secret = Throw e
    /\ e ∈ [KeyDerivationError; InvalidIV; InvalidKeyLength; InvalidAuthTag].
Proof.
  apply (short_envelope_rejected (js "QUJD") secret).
  - vm_compute. lia.
  - vm_compute. reflexivity.
Defined.

(** Two calls in a row on the counting entropy source. *)
Lemma fresh_draw_fresh_envelope_witness :
  exists env1 rng1 env2 rng2,
    Encryption.encrypt (VString ssn) secret counting = Ok (env1, rng1)
    /\ Encryption.encrypt (VString ssn) secret rng1 = Ok (env2, rng2)
    /\ env1 <> env2.
Proof.
  destruct (ref_encrypt_Ok ssn secret (Encryption.consumed counting)) as (env2 & E2).
  exists (envelope_of ssn), (Encryption.consumed counting), env2,
    (Encryption.consumed (Encryption.consumed counting)).
  split; [apply encrypt_reference|]. split; [exact E2|].
  apply (fresh_draw_fresh_envelope _ secret counting _ _ _ _
           (encrypt_reference ssn) E2).
  intros E. apply (f_equal snd) in E. vm_compute in E. discriminate.
Defined.

(** Freshness is the entropy's: a source stuck at one byte gives the same
    envelope twice. *)
Lemma stuck_source_repeats :
  exists env,
    Encryption.encrypt (VString ssn) secret stuck
      = Ok (env, Encryption.consumed stuck)
    /\ Encryption.encrypt (VString ssn) secret (Encryption.consumed stuck)
       = Ok (env, Encryption.consumed (Encryption.consumed stuck)).
Proof.
  destruct (ref_deriveKey secret (Encryption.drawn_salt stuck)) as (dk & Hdk & Hlen).
  eexists. split; [apply (encrypt_Ok ssn secret stuck dk Hdk Hlen)|].
  apply (encrypt_Ok ssn secret (Encryption.consumed stuck) dk Hdk Hlen).
Qed.


(** The empty secret with a salt of one byte: a key of 32 bytes is derived, no
    error is raised. *)
Lemma empty_secret_short_salt_derive :
  exists dk, Encryption.deriveKey [] [x00] = Ok dk /\ length dk = KEY_LENGTH.
Proof. eexists. split; [reflexivity|reflexivity]. Qed.

(** A record with a social security number and no medical history:
    [JSON.stringify(undefined)] is [undefined], which the cipher refuses. *)
Lemma patient_without_history_refused :
  Patient.encrypt secret {[ "ssn" := VString ssn ]} counting = Throw TypeError.
Proof. vm_compute. reflexivity. Qed.

(** A record goes through [Patient.encrypt] and [Patient.decrypt] and comes
    back. *)
Lemma patient_fields_framed_witness :
  exists p' rng',
    Patient.encrypt secret patient counting = Ok (p', rng')
    /\ Patient.decrypt secret p' = Ok patient.
Proof.
  refine (proj2 (proj2 (patient_fields_framed secret laws patient counting))
            ssn (VString (js "asthma")) (Reference.quote :: js "asthma" ++ [Reference.quote])
            _ _ _ _ _ _).
  - reflexivity.
  - apply UTF8Facts.well_formed_js.
  - reflexivity.
  - reflexivity.
  - vm_compute.
    repeat (apply UTF8.wf_unit;
            [unfold is_code_unit; lia|reflexivity|reflexivity|]).
    apply UTF8.wf_nil.
  - vm_compute. reflexivity.
Defined.

End Examples.

(** * Validation, authentication, audit log and proxy *)

(** ** Patterns *)

Module RegExpFacts.
Import RegExp.

Lemma digit_matches c : atom_matches Digit c = true <-> is_digit c.
Proof. unfold atom_matches, is_digit. rewrite andb_true_iff, !Z.leb_le. reflexivity. Qed.

Lemma char_matches x c : atom_matches (Char x) c = true <-> c = x.
Proof. unfold atom_matches. apply Z.eqb_eq. Qed.

Lemma consume_S n a s r :
  consume (S n) a s = Some r <->
  exists c s', s = c :: s' /\ atom_matches a c = true /\ consume n a s' = Some r.
Proof.
  cbn [consume]. destruct s as [|c s']; [split; [discriminate|intros (c & s' & [=] & _)]|].
  destruct (atom_matches a c) eqn:E.
  - split; [intros Hr; exists c, s'; auto|intros (c' & s'' & [= <- <-] & _ & Hr); exact Hr].
  - split; [discriminate|intros (c' & s'' & [= <- <-] & Hm & _); congruence].
Qed.

Lemma consume_cons n a c s :
  atom_matches a c = true -> consume (S n) a (c :: s) = consume n a s.
Proof. intros E. cbn [consume]. rewrite E. reflexivity. Qed.

Lemma consume_0 a s : consume 0 a s = Some s.
Proof. reflexivity. Qed.

(** A pattern that opens with [^] matches at the start of the input or
    nowhere. *)
Lemma search_anchored p index s : search (AtStart :: p) (S index) s = None.
Proof.
  revert index. induction s as [|c s IH]; intros index; cbn [search match_here].
  - destruct (decide (S index = 0)); [lia|reflexivity].
  - destruct (decide (S index = 0)); [lia|]. rewrite IH. reflexivity.
Qed.

Lemma search_at_start p s :
  search (AtStart :: p) 0 s = (fun rest => ([], rest)) <$> match_here p 0 s.
Proof.
  destruct s as [|c s]; cbn [search match_here];
    (destruct (decide (0 = 0)); [|contradiction]);
    destruct (match_here p 0 _); try reflexivity.
  rewrite search_anchored. reflexivity.
Qed.

End RegExpFacts.

Import RegExpFacts.

(** ** The pattern of the social security number *)

(** What the pattern accepts has the form ddd-dd-dddd. *)
Lemma ssn_matches_digits s : ssn_matches s = true -> ssn_shape s.
Proof.
  unfold ssn_matches, RegExp.test, ssn_pattern.
  rewrite bool_decide_eq_true, search_at_start.
  intros [[before after] H]. apply fmap_Some in H as (rest & H & _).
  cbn [RegExp.match_here] in H.
  destruct (RegExp.consume 3 RegExp.Digit s) as [s1|] eqn:H1; [|discriminate].
  destruct (RegExp.consume 1 (RegExp.Char 45) s1) as [s2|] eqn:H2; [|discriminate].
  destruct (RegExp.consume 2 RegExp.Digit s2) as [s3|] eqn:H3; [|discriminate].
  destruct (RegExp.consume 1 (RegExp.Char 45) s3) as [s4|] eqn:H4; [|discriminate].
  destruct (RegExp.consume 4 RegExp.Digit s4) as [s5|] eqn:H5; [|discriminate].
  destruct s5 as [|x s5]; [|discriminate].
  apply consume_S in H1 as (a & t1 & -> & Ha & H1).
  apply consume_S in H1 as (b & t2 & -> & Hb & H1).
  apply consume_S in H1 as (c & t3 & -> & Hc & [= ->]).
  apply consume_S in H2 as (m1 & t4 & -> & Hm1 & [= ->]).
  apply consume_S in H3 as (d & t5 & -> & Hd & H3).
  apply consume_S in H3 as (e & t6 & -> & He & [= ->]).
  apply consume_S in H4 as (m2 & t7 & -> & Hm2 & [= ->]).
  apply consume_S in H5 as (f & t8 & -> & Hf & H5).
  apply consume_S in H5 as (g & t9 & -> & Hg & H5).
  apply consume_S in H5 as (h & t10 & -> & Hh & H5).
  apply consume_S in H5 as (i & t11 & -> & Hi & [= ->]).
  apply char_matches in Hm1 as ->. apply char_matches in Hm2 as ->.
  apply digit_matches in Ha, Hb, Hc, Hd, He, Hf, Hg, Hh, Hi.
  exists a, b, c, d, e, f, g, h, i. split; [|reflexivity].
  repeat (apply Forall_cons; split; [assumption|]). apply Forall_nil_2.
Qed.

(** X2.  The pattern of the validation accepts exactly the strings of eleven
    characters made of three digits, a hyphen, two digits, a hyphen and four
    digits: nothing before, nothing after, no other digits than 0 to 9. *)
Theorem ssn_matches_shape s : ssn_matches s = true <-> ssn_shape s.
Proof.
  split; [apply ssn_matches_digits|].
  unfold ssn_matches, RegExp.test, ssn_pattern.
  rewrite bool_decide_eq_true, search_at_start.
  intros (a & b & c & d & e & f & g & h & i & Hd & ->).
  repeat match goal with
         | H : Forall _ (_ :: _) |- _ => apply Forall_cons in H as [?%digit_matches H]
         end.
  cbn [RegExp.match_here].
  repeat (rewrite ?consume_cons, ?consume_0 by (assumption || reflexivity);
          cbv beta iota).
  eexists. reflexivity.
Qed.

(** ** The text of an envelope *)

Module Base64Shape.
Import Base64.
Local Open Scope Z_scope.

Lemma char_base64 v : 0 <= v < 64 -> base64_character (char v).
Proof.
  intros Hv. unfold base64_character, char.
  repeat match goal with
         | |- context [if ?c then _ else _] => destruct c eqn:?
         end; lia.
Qed.

Lemma encode_characters bs : Forall base64_character (encode bs).
Proof.
  remember (length bs) as n eqn:Hn.
  revert bs Hn. induction (lt_wf n) as [n _ IH]. intros bs Hn.
  destruct bs as [|a [|b [|c rest]]]; [constructor| | |].
  - pose proof (byte_to_Z_range a). cbn [encode].
    repeat (apply Forall_cons; split; [first [apply char_base64; zdiv | unfold base64_character, pad; lia]|]).
    constructor.
  - pose proof (byte_to_Z_range a). pose proof (byte_to_Z_range b). cbn [encode].
    repeat (apply Forall_cons; split; [first [apply char_base64; zdiv | unfold base64_character, pad; lia]|]).
    constructor.
  - pose proof (byte_to_Z_range a). pose proof (byte_to_Z_range b).
    pose proof (byte_to_Z_range c). cbn [encode].
    repeat (apply Forall_cons; split; [apply char_base64; zdiv|]).
    apply (IH (length rest)); [subst n; cbn [length]; lia|reflexivity].
Qed.

Lemma encode_length bs : (length (encode bs) = 4 * ((length bs + 2) / 3))%nat.
Proof.
  remember (length bs) as n eqn:Hn.
  revert bs Hn. induction (lt_wf n) as [n _ IH]. intros bs Hn.
  destruct bs as [|a [|b [|c rest]]]; subst n; [reflexivity|reflexivity|reflexivity|].
  cbn [encode length].
  rewrite (IH (length rest)) by (cbn [length]; lia || reflexivity).
  replace (S (S (S (length rest))) + 2)%nat with (length rest + 2 + 1 * 3)%nat by lia.
  rewrite Nat.div_add by lia. lia.
Qed.

End Base64Shape.

(** ** A validated number through the encryption *)

Lemma ssn_shape_well_formed s : ssn_shape s -> UTF8.well_formed s.
Proof.
  intros (a & b & c & d & e & f & g & h & i & Hd & ->).
  assert (Hunit : forall x, (45 <= x <= 57)%Z ->
            is_code_unit x /\ UTF8.is_high_surrogate x = false
            /\ UTF8.is_low_surrogate x = false).
  { intros x Hx. unfold is_code_unit, UTF8.is_high_surrogate, UTF8.is_low_surrogate.
    split; [lia|]. split; apply andb_false_iff; left; apply Z.leb_gt; lia. }
  repeat match goal with
         | H : Forall _ (_ :: _) |- _ => apply Forall_cons in H as [? H]
         end.
  unfold is_digit in *.
  repeat (apply UTF8.wf_unit; [apply Hunit; lia|apply Hunit; lia|apply Hunit; lia|]).
  apply UTF8.wf_nil.
Qed.

Lemma sextets_digit c s :
  is_digit c -> Base64.sextets (c :: s) = (c + 4)%Z :: Base64.sextets s.
Proof.
  unfold is_digit. intros Hc. rewrite Base64Facts.sextets_cons by lia.
  unfold Base64.pad, Base64.unbase64.
  destruct (Z.eqb_spec c 61); [lia|].
  destruct (Z.leb_spec 65 c); [lia|]. cbn [andb].
  destruct (Z.leb_spec 97 c); [lia|]. cbn [andb].
  destruct (Z.leb_spec 48 c); [|lia]. destruct (Z.leb_spec c 57); [|lia].
  reflexivity.
Qed.

Lemma sextets_hyphen s : Base64.sextets (45%Z :: s) = 62%Z :: Base64.sextets s.
Proof. reflexivity. Qed.

(** A string of the form ddd-dd-dddd is read as base64 for eight bytes. *)
Lemma ssn_shape_decodes s : ssn_shape s -> length (Base64.decode s) = 8.
Proof.
  intros (a & b & c & d & e & f & g & h & i & Hd & ->).
  repeat match goal with
         | H : Forall _ (_ :: _) |- _ => apply Forall_cons in H as [? H]
         end.
  unfold Base64.decode.
  repeat (rewrite ?sextets_hyphen; rewrite ?sextets_digit by assumption).
  reflexivity.
Qed.

Section Compositions.
Context `{Crypto} `{Runtime}.

(** With no byte left for the initialization vector, the decipher is never
    created. *)
Lemma open_without_iv buffer K :
  length buffer <= SALT_LENGTH ->
  exists e, Encryption.open buffer K = Throw e /\ e ∈ [KeyDerivationError; InvalidIV].
Proof.
  intros Hlen. unfold Encryption.open, Encryption.segments.
  destruct (Encryption.deriveKey K _) as [dk|e] eqn:Hdk; cbn [mbind result_bind].
  2:{ exists e. split; [reflexivity|].
      unfold Encryption.deriveKey in Hdk. destruct (pbkdf2 _ _ _ _ _); [discriminate|].
      injection Hdk as <-. apply list_elem_of_here. }
  unfold createDecipheriv, check_key_iv.
  destruct (decide (ALGORITHM = aes_256_gcm)); [|contradiction].
  unfold Buffer_slice. rewrite (drop_ge buffer SALT_LENGTH) by exact Hlen.
  rewrite take_nil.
  cbn [length]. destruct (decide (0 = 0)); [|contradiction]. cbn [mbind result_bind].
  eexists. split; [reflexivity|]. apply list_elem_of_further, list_elem_of_here.
Qed.

(** X3.  An SSN that the validation pattern accepts comes back from the
    encryption exactly. *)
Theorem validated_ssn_round_trip :
  CryptoLaws -> forall s K rng,
  ssn_matches s = true ->
  exists env,
    Encryption.encrypt (VString s) K rng = Ok (env, Encryption.consumed rng)
    /\ Encryption.decrypt (VString env) K = Ok s.
Proof.
  intros Hlaws s K rng Hs. apply ssn_matches_digits, ssn_shape_well_formed in Hs.
  destruct (decrypt_encrypt_transcoded Hlaws s K rng) as (env & Henc & Hdec).
  exists env. split; [exact Henc|].
  rewrite Hdec, UTF8Facts.utf8_decode_encode by exact Hs. reflexivity.
Qed.

(** X4.  A record that was never encrypted is not decrypted to garbage: with an
    SSN that the pattern accepts in the clear, [Patient.decrypt] raises. *)
Theorem plain_ssn_not_decrypted :
  forall KEY (p : gmap string (JSValue JSOther)) s,
  p !! "ssn" = Some (VString s) -> ssn_matches s = true ->
  exists e, Patient.decrypt KEY p = Throw e /\ e ∈ [KeyDerivationError; InvalidIV].
Proof.
  intros KEY p s Hp Hs. apply ssn_matches_digits, ssn_shape_decodes in Hs.
  unfold Patient.decrypt, Patient.get. rewrite Hp. cbn [default from_option id].
  unfold Encryption.decrypt. cbn [Buffer_from_base64 mbind result_bind].
  destruct (open_without_iv (Base64.decode s) KEY) as (e & He & Hin).
  { rewrite Hs. unfold SALT_LENGTH. lia. }
  exists e. rewrite He. split; [reflexivity|exact Hin].
Qed.

(** X5.  The envelope is printable base64 text, and its size is that of the
    bytes of the plaintext (for a string, its UTF-8 form) plus 96 bytes, four
    characters for three bytes. *)
Theorem envelope_text_shape :
  gcm_tag_full -> gcm_keeps_length -> forall text K rng env rng',
  Encryption.encrypt text K rng = Ok (env, rng') ->
  exists data,
    Cipher_input text = Ok data
    /\ (forall P, text = VString P -> data = UTF8.encode P)
    /\ Forall base64_character env
    /\ length (Base64.decode env) = 96 + length data
    /\ length env = 4 * ((96 + length data + 2) / 3).
Proof.
  intros Hfull Hkeep text K rng env rng' Henc.
  apply encrypt_inv in Henc as (data & dk & Hin & _ & _ & -> & _).
  exists data. split; [exact Hin|].
  split; [intros P ->; injection Hin as <-; reflexivity|].
  split; [apply Base64Shape.encode_characters|].
  assert (Hlen : length (Encryption.sealed data dk (Encryption.drawn_salt rng)
                           (Encryption.drawn_iv rng)) = 96 + length data).
  { unfold Encryption.sealed. rewrite envelope_app, !length_app.
    rewrite drawn_salt_length, drawn_iv_length, Hfull, Hkeep.
    unfold SALT_LENGTH, IV_LENGTH. lia. }
  rewrite Base64Facts.base64_decode_encode, Base64Shape.encode_length, Hlen.
  split; reflexivity.
Qed.

Variable KEY : jsstring.

(** The steps of a call of [Patient.encrypt] that returns. *)
Lemma patient_encrypt_steps (p p' : gmap string (JSValue JSOther)) rng rng' :
  Patient.encrypt KEY p rng = Ok (p', rng') ->
  exists e1 text e2,
    Encryption.encrypt (Patient.get p "ssn") KEY rng = Ok (e1, Encryption.consumed rng)
    /\ JSON_stringify (Patient.get p "medicalHistory") = Ok text
    /\ Encryption.encrypt text KEY (Encryption.consumed rng)
       = Ok (e2, Encryption.consumed (Encryption.consumed rng))
    /\ p' = <["medicalHistory" := VString e2]> (<["ssn" := VString e1]> p)
    /\ rng' = Encryption.consumed (Encryption.consumed rng).
Proof.
  unfold Patient.encrypt.
  destruct (Encryption.encrypt (Patient.get p "ssn") KEY rng) as [[e1 rng1]|] eqn:E1;
    [|discriminate].
  cbn [mbind result_bind].
  destruct (JSON_stringify _) as [text|] eqn:Et; [|discriminate]. cbn [mbind result_bind].
  destruct (Encryption.encrypt text KEY rng1) as [[e2 rng2]|] eqn:E2; [|discriminate].
  cbn [mbind result_bind]. intros [= <- <-].
  pose proof E1 as E1'. apply encrypt_inv in E1' as (_ & _ & _ & _ & _ & _ & ->).
  pose proof E2 as E2'. apply encrypt_inv in E2' as (_ & _ & _ & _ & _ & _ & ->).
  exists e1, text, e2. repeat split; assumption || reflexivity.
Qed.

(** X6.  [Patient.encrypt] returns a record exactly when the cipher takes
    the ssn (a string, or a Buffer, TypedArray or DataView), [JSON.stringify]
    returns for the medical history and the cipher takes what it returns, and
    both key derivations give a key of 32 bytes.  So it throws for a record
    without ssn, and for one whose medical history [JSON.stringify] turns into
    [undefined]. *)
Theorem patient_encrypt_demands_data :
  forall (p : gmap string (JSValue JSOther)) rng,
  ((exists p' rng', Patient.encrypt KEY p rng = Ok (p', rng'))
   <-> exists d1 text d2 dk1 dk2,
         Cipher_input (Patient.get p "ssn") = Ok d1
         /\ JSON_stringify (Patient.get p "medicalHistory") = Ok text
         /\ Cipher_input text = Ok d2
         /\ Encryption.deriveKey KEY (Encryption.drawn_salt rng) = Ok dk1
         /\ length dk1 = 32
         /\ Encryption.deriveKey KEY
              (Encryption.drawn_salt (Encryption.consumed rng)) = Ok dk2
         /\ length dk2 = 32)
  /\ (Patient.get p "ssn" = VUndefined
      \/ JSON_stringify (Patient.get p "medicalHistory") = Ok VUndefined ->
      exists e, Patient.encrypt KEY p rng = Throw e).
Proof.
  intros p rng.
  assert (Hiff : (exists p' rng', Patient.encrypt KEY p rng = Ok (p', rng'))
     <-> exists d1 text d2 dk1 dk2,
           Cipher_input (Patient.get p "ssn") = Ok d1
           /\ JSON_stringify (Patient.get p "medicalHistory") = Ok text
           /\ Cipher_input text = Ok d2
           /\ Encryption.deriveKey KEY (Encryption.drawn_salt rng) = Ok dk1
           /\ length dk1 = 32
           /\ Encryption.deriveKey KEY
                (Encryption.drawn_salt (Encryption.consumed rng)) = Ok dk2
           /\ length dk2 = 32).
  { split.
    - intros (p' & rng' & Henc).
      apply patient_encrypt_steps in Henc as (e1 & text & e2 & E1 & Et & E2 & _ & _).
      apply encrypt_inv in E1 as (d1 & dk1 & H1 & Hdk1 & Hlen1 & _).
      apply encrypt_inv in E2 as (d2 & dk2 & H2 & Hdk2 & Hlen2 & _).
      exists d1, text, d2, dk1, dk2. repeat split; assumption.
    - intros (d1 & text & d2 & dk1 & dk2 & H1 & Et & H2 & Hdk1 & Hlen1 & Hdk2 & Hlen2).
      unfold Patient.encrypt.
      rewrite (encrypt_data_Ok _ d1 KEY rng dk1 H1 Hdk1 Hlen1).
      cbn [mbind result_bind]. rewrite Et. cbn [mbind result_bind].
      rewrite (encrypt_data_Ok _ d2 KEY _ dk2 H2 Hdk2 Hlen2).
      cbn [mbind result_bind]. eexists _, _. reflexivity. }
  split; [exact Hiff|].
  intros Hcase.
  destruct (Patient.encrypt KEY p rng) as [[p' rng']|e] eqn:Henc;
    [exfalso|exists e; reflexivity].
  destruct (proj1 Hiff (ex_intro _ p' (ex_intro _ rng' eq_refl)))
    as (d1 & text & d2 & _ & _ & H1 & Et & H2 & _).
  destruct Hcase as [Hu|Hu].
  - rewrite Hu in H1. discriminate.
  - rewrite Hu in Et. injection Et as <-. discriminate.
Qed.

Lemma slice_iv salt iv rest :
  length salt = SALT_LENGTH -> length iv = IV_LENGTH ->
  Buffer_slice (salt ++ iv ++ rest) SALT_LENGTH (SALT_LENGTH + IV_LENGTH) = iv.
Proof.
  intros Hs Hi. unfold Buffer_slice.
  rewrite drop_app_length' by (symmetry; exact Hs).
  replace (SALT_LENGTH + IV_LENGTH - SALT_LENGTH) with IV_LENGTH by reflexivity.
  apply take_app_length'. symmetry. exact Hi.
Qed.

Lemma drawn_iv_stream rng : Encryption.drawn_iv rng = rng <$> seq 0 16.
Proof. reflexivity. Qed.

Lemma drawn_salt_stream rng : Encryption.drawn_salt rng = rng <$> seq 16 64.
Proof.
  unfold Encryption.drawn_salt, randomBytes. cbn [fst snd].
  change (seq 16 64) with (seq (16 + 0) 64).
  rewrite <- (fmap_add_seq 16 0 64), <- list_fmap_compose. reflexivity.
Qed.

Lemma consumed_stream rng i : Encryption.consumed rng i = rng (80 + i).
Proof.
  unfold Encryption.consumed, randomBytes. cbn [fst snd].
  unfold SALT_LENGTH, IV_LENGTH. f_equal; lia.
Qed.

Lemma envelope_draws text K rng env rng' :
  Encryption.encrypt text K rng = Ok (env, rng') ->
  Buffer_slice (Base64.decode env) SALT_LENGTH (SALT_LENGTH + IV_LENGTH) = rng <$> seq 0 16
  /\ Buffer_slice (Base64.decode env) 0 SALT_LENGTH = rng <$> seq 16 64.
Proof.
  intros Henc. apply encrypt_inv in Henc as (P & dk & _ & _ & _ & -> & _).
  rewrite Base64Facts.base64_decode_encode. unfold Encryption.sealed.
  rewrite envelope_app. split.
  - rewrite slice_iv by (apply drawn_salt_length || apply drawn_iv_length).
    apply drawn_iv_stream.
  - rewrite slice_salt by apply drawn_salt_length. apply drawn_salt_stream.
Qed.

(** X7.  The two envelopes of a record are made with four draws from disjoint
    stretches of the entropy: bytes 0 to 16 and 16 to 80 for the ssn, 80 to 96
    and 96 to 160 for the medical history; the call leaves the entropy past
    byte 160. *)
Theorem patient_encrypt_draws :
  forall (p p' : gmap string (JSValue JSOther)) rng rng',
  Patient.encrypt KEY p rng = Ok (p', rng') ->
  exists e1 e2,
    p' !! "ssn" = Some (VString e1)
    /\ p' !! "medicalHistory" = Some (VString e2)
    /\ Buffer_slice (Base64.decode e1) 64 80 = rng <$> seq 0 16
    /\ Buffer_slice (Base64.decode e1) 0 64 = rng <$> seq 16 64
    /\ Buffer_slice (Base64.decode e2) 64 80 = rng <$> seq 80 16
    /\ Buffer_slice (Base64.decode e2) 0 64 = rng <$> seq 96 64
    /\ forall i, rng' i = rng (160 + i).
Proof.
  intros p p' rng rng' Henc.
  apply patient_encrypt_steps in Henc as (e1 & text & e2 & E1 & _ & E2 & -> & ->).
  apply envelope_draws in E1 as [Hiv1 Hsalt1].
  apply envelope_draws in E2 as [Hiv2 Hsalt2].
  exists e1, e2.
  split; [rewrite lookup_insert_ne by discriminate; apply lookup_insert_eq|].
  split; [apply lookup_insert_eq|].
  split; [exact Hiv1|]. split; [exact Hsalt1|].
  split.
  { etrans; [exact Hiv2|]. change (seq 80 16) with (seq (80 + 0) 16).
    rewrite <- (fmap_add_seq 80 0 16), <- list_fmap_compose.
    apply list_fmap_ext. intros _ i _. apply consumed_stream. }
  split.
  { etrans; [exact Hsalt2|]. change (seq 96 64) with (seq (80 + 16) 64).
    rewrite <- (fmap_add_seq 80 16 64), <- list_fmap_compose.
    apply list_fmap_ext. intros _ i _. apply consumed_stream. }
  intros i. rewrite !consumed_stream. f_equal; lia.
Qed.

End Compositions.

(** ** Authentication *)

Lemma split_cons_sep sep s : split sep (sep :: s) = [] :: split sep s.
Proof. cbn [split]. rewrite Z.eqb_refl. reflexivity. Qed.

Lemma split_not_nil sep s : split sep s <> [].
Proof.
  destruct s as [|c s]; cbn [split]; [discriminate|].
  destruct (c =? sep)%Z; [discriminate|]. destruct (split sep s); discriminate.
Qed.

Lemma split_cons_other sep c s field fields :
  c <> sep -> split sep s = field :: fields ->
  split sep (c :: s) = (c :: field) :: fields.
Proof.
  intros Hc Hs. cbn [split]. destruct (Z.eqb_spec c sep); [contradiction|].
  rewrite Hs. reflexivity.
Qed.

(** The first field runs up to the first separator. *)
Lemma split_app sep a b : sep ∉ a -> split sep (a ++ sep :: b) = a :: split sep b.
Proof.
  induction a as [|c a IH]; intros Ha; [apply split_cons_sep|].
  apply not_elem_of_cons in Ha as [Hc Ha]. cbn [app].
  apply split_cons_other; [congruence|]. apply IH, Ha.
Qed.

Lemma split_whole sep a : sep ∉ a -> split sep a = [a].
Proof.
  induction a as [|c a IH]; intros Ha; [reflexivity|].
  apply not_elem_of_cons in Ha as [Hc Ha].
  apply split_cons_other; [congruence|]. apply IH, Ha.
Qed.

Section AuthenticationTheorems.
Context {D : Type}.
Variable jwt_verify : jsstring -> jsstring -> result Payload.
Variable JWT_SECRET : jsstring.

Lemma bearer_second (req : Req D) scheme token rest :
  req_authorization req = Some (scheme ++ 32%Z :: token ++ rest) ->
  (32%Z ∉ scheme) -> (32%Z ∉ token) -> (rest = [] \/ exists r, rest = 32%Z :: r) ->
  bearer req = Some token.
Proof.
  intros Hh Hs Ht Hrest. unfold bearer. rewrite Hh. cbn [mbind option_bind].
  rewrite split_app by exact Hs. cbn [lookup list_lookup].
  destruct Hrest as [->|[r ->]].
  - rewrite app_nil_r, split_whole by exact Ht. reflexivity.
  - rewrite split_app by exact Ht. reflexivity.
Qed.

(** X8.  No header, a header of one word, or a header whose first space is its
    last character or is followed by another space: the request is answered
    with 401, No token provided, and the token verification is not asked. *)
Theorem token_missing : forall req : Req D,
  (req_authorization req = None
   \/ (exists header, req_authorization req = Some header /\ (32%Z ∉ header))
   \/ (exists scheme tail,
         req_authorization req = Some (scheme ++ 32%Z :: tail)
         /\ (32%Z ∉ scheme) /\ (tail = [] \/ exists r, tail = 32%Z :: r))) ->
  verifyToken jwt_verify JWT_SECRET req = (req, Respond 401 "No token provided").
Proof.
  intros req Hcases. unfold verifyToken.
  assert (Hb : bearer req = None \/ bearer req = Some []).
  { unfold bearer.
    destruct Hcases as [->|[(h & -> & Hh)|(scheme & tail & -> & Hs & Htail)]];
      cbn [mbind option_bind].
    - left. reflexivity.
    - left. rewrite split_whole by exact Hh. reflexivity.
    - right. rewrite split_app by exact Hs. cbn [lookup list_lookup].
      destruct Htail as [->|[r ->]]; [reflexivity|].
      rewrite split_cons_sep. reflexivity. }
  destruct Hb as [->| ->]; reflexivity.
Qed.

(** X9.  The token is the second field of the header: the word before it (Bearer
    or any other) and whatever follows a second space play no part.  The
    request goes on, with the decoded payload as its user, exactly when the
    verification accepts that field; otherwise it is answered with 401,
    Invalid token. *)
Theorem token_is_second_field : forall (req : Req D) scheme token rest,
  req_authorization req = Some (scheme ++ 32%Z :: token ++ rest) ->
  (32%Z ∉ scheme) -> (32%Z ∉ token) -> token <> [] ->
  (rest = [] \/ exists r, rest = 32%Z :: r) ->
  verifyToken jwt_verify JWT_SECRET req =
    match jwt_verify token JWT_SECRET with
    | Ok decoded => (set_user req decoded, Next)
    | Throw _ => (req, Respond 401 "Invalid token")
    end.
Proof.
  intros req scheme token rest Hh Hs Ht Hne Hrest. unfold verifyToken.
  rewrite (bearer_second req scheme token rest Hh Hs Ht Hrest).
  destruct token as [|c token]; [contradiction|]. reflexivity.
Qed.

(** X10.  A route behind [verifyToken] and [checkPermission(permission)] reaches
    its handler exactly when the second field of the header is a token that
    the verification accepts and the role of its payload has, in
    [rolePermissions], a list of its own that includes the permission; the
    handler then sees that payload as [req.user].  A [req.user] that was set
    before the route has no influence. *)
Theorem protected_route : forall permission (req : Req D),
  (forall req',
     run [verifyToken jwt_verify JWT_SECRET; checkPermission_of permission] req
       = (req', Next)
     <-> exists token decoded granted,
           bearer req = Some token /\ token <> []
           /\ jwt_verify token JWT_SECRET = Ok decoded
           /\ rolePermissions !! payload_role decoded = Some granted
           /\ permission ∈ granted
           /\ req' = set_user req decoded)
  /\ (forall user,
        snd (run [verifyToken jwt_verify JWT_SECRET; checkPermission_of permission]
               (with_user req user))
        = snd (run [verifyToken jwt_verify JWT_SECRET; checkPermission_of permission]
                 req)).
Proof.
  intros permission req. split.
  - intros req'. cbn [run]. unfold verifyToken.
    destruct (bearer req) as [[|c token]|] eqn:Hb.
    + split; [discriminate|]. intros (t & d & g & [= <-] & Hne & _). contradiction.
    + destruct (jwt_verify (c :: token) JWT_SECRET) as [decoded|e] eqn:Hv.
      * unfold checkPermission_of. cbn [set_user req_payload].
        unfold checkPermission, get_property. cbn [request principal req_user user_role].
        destruct (rolePermissions !! payload_role decoded) as [granted|] eqn:Hg.
        -- case_bool_decide as Hin.
           ++ split.
              ** intros [= <-]. exists (c :: token), decoded, granted.
                 repeat split; first [assumption|reflexivity|discriminate].
              ** intros (t & d & g & [= <-] & _ & Hd & _ & _ & ->).
                 rewrite Hv in Hd. injection Hd as <-. reflexivity.
           ++ split; [discriminate|].
              intros (t & d & g & [= <-] & _ & Hd & Hg' & Hin' & _).
              rewrite Hv in Hd. injection Hd as <-. rewrite Hg in Hg'.
              injection Hg' as <-. contradiction.
        -- split.
           ++ case_bool_decide; discriminate.
           ++ intros (t & d & g & [= <-] & _ & Hd & Hg' & _).
              rewrite Hv in Hd. injection Hd as <-. rewrite Hg in Hg'. discriminate.
      * split; [discriminate|].
        intros (t & d & g & [= <-] & _ & Hd & _). rewrite Hv in Hd. discriminate.
    + split; [discriminate|]. intros (t & d & g & [=] & _).
  - intros user. cbn [run]. unfold verifyToken.
    change (bearer (with_user req user)) with (bearer req).
    destruct (bearer req) as [[|c token]|]; [reflexivity| |reflexivity].
    destruct (jwt_verify (c :: token) JWT_SECRET); reflexivity.
Qed.

End AuthenticationTheorems.

(** ** The audit log *)

Section AuditTheorems.
Context {D : Type}.

(** Through [n] mounted access logs, with [req] bound and a user on the
    request, a body reaches the function of the framework after [n] lines. *)
Lemma call_mounted global n (req : Req D) user original body w :
  req_payload req = Some user ->
  call (Some global) (mounted n OriginalSend) original req body w
  = original body
      {| audit_log := audit_log w ++ replicate n (access_entry global user req);
         sent := sent w |}.
Proof.
  intros Hu. revert w. induction n as [|n IH]; intros w.
  - cbn [mounted call replicate]. rewrite app_nil_r. destruct w; reflexivity.
  - cbn [mounted logDataAccess fst call]. rewrite Hu. unfold logAudit.
    rewrite IH. cbn [audit_log sent]. rewrite <- app_assoc. reflexivity.
Qed.

(** X11.  When the scope of [logAudit] binds [req] and the request has a user, a
    [res.send(body)] through [n] mounted access logs sends the body once and
    writes equal lines, each with the body of the request (not the one sent)
    and the address and agent of the [req] of that scope: [n] lines for a body
    that [res.send] writes itself, and twice [n] for a body that it hands to
    [res.json] (an object, an array, a number, a boolean), since [res.json]
    calls [res.send] again with the text, which is what is sent. *)
Theorem audited_send_logs : forall global res_json n (req : Req D) user body w,
  req_payload req = Some user ->
  send (Some global) res_json (mounted n OriginalSend) req body w
  = ({| audit_log :=
          audit_log w ++
          replicate (match res_json body with Some _ => n + n | None => n end)
            (access_entry global user req);
        sent := sent w ++ [default body (res_json body)] |}, None).
Proof.
  intros global res_json n req user body w Hu. unfold send.
  rewrite (call_mounted global n req user _ body w Hu).
  destruct (res_json body) as [text|]; [|reflexivity].
  rewrite (call_mounted global n req user _ text _ Hu). unfold write.
  cbn [audit_log sent default from_option id].
  rewrite <- app_assoc, <- replicate_add. reflexivity.
Qed.

(** X12.  When nothing binds [req] in the scope of [logAudit], or the request has
    no user, a [res.send] through the access log raises and does nothing
    else: no line is written and no body is sent. *)
Theorem audited_send_fails : forall scope res_json n s (req : Req D) body w,
  scope = None \/ req_payload req = None ->
  send scope res_json (mounted (S n) s) req body w
  = (w, Some match req_payload req with
             | Some _ => ReferenceError "req"
             | None => Known TypeError
             end).
Proof.
  intros scope res_json n s req body w Hcase. unfold send.
  cbn [mounted logDataAccess fst call].
  destruct (req_payload req) as [user|]; [|reflexivity].
  destruct Hcase as [->|[=]]. reflexivity.
Qed.

End AuditTheorems.

(** ** The rewrite of the proxy *)

Lemma api_prefix_match path rest :
  RegExp.match_here (tail api_prefix) 0 path = Some rest <-> path = js "/api" ++ rest.
Proof.
  unfold api_prefix. cbn [tail RegExp.match_here]. split.
  - intros H.
    destruct (RegExp.consume 1 (RegExp.Char 47) path) as [s1|] eqn:H1; [|discriminate].
    destruct (RegExp.consume 1 (RegExp.Char 97) s1) as [s2|] eqn:H2; [|discriminate].
    destruct (RegExp.consume 1 (RegExp.Char 112) s2) as [s3|] eqn:H3; [|discriminate].
    destruct (RegExp.consume 1 (RegExp.Char 105) s3) as [s4|] eqn:H4; [|discriminate].
    injection H as ->.
    apply consume_S in H1 as (c1 & t1 & -> & ->%char_matches & [= ->]).
    apply consume_S in H2 as (c2 & t2 & -> & ->%char_matches & [= ->]).
    apply consume_S in H3 as (c3 & t3 & -> & ->%char_matches & [= ->]).
    apply consume_S in H4 as (c4 & t4 & -> & ->%char_matches & [= ->]).
    reflexivity.
  - intros ->. reflexivity.
Qed.

(** X13.  A path that begins with /api loses these four characters, once; any
    other path is left as it is.  Both times the console gets two lines, the
    path as it came and the path as it leaves. *)
Theorem rewrite_strips_api :
  (forall rest console,
     rewrite (js "/api" ++ rest) console
     = (rest, console ++ [("Original path:", js "/api" ++ rest);
                          ("Rewritten path:", rest)]))
  /\ (forall path console,
        ~ (exists rest, path = js "/api" ++ rest) ->
        rewrite path console
        = (path, console ++ [("Original path:", path); ("Rewritten path:", path)])).
Proof.
  split.
  - intros rest console. unfold rewrite, RegExp.replace.
    change api_prefix with (RegExp.AtStart :: tail api_prefix).
    rewrite search_at_start.
    rewrite (proj2 (api_prefix_match (js "/api" ++ rest) rest) eq_refl).
    cbn [fmap option_fmap option_map app]. rewrite <- app_assoc. reflexivity.
  - intros path console Hno. unfold rewrite, RegExp.replace.
    change api_prefix with (RegExp.AtStart :: tail api_prefix).
    rewrite search_at_start.
    destruct (RegExp.match_here (tail api_prefix) 0 path) as [rest|] eqn:E.
    + exfalso. apply Hno. exists rest. apply api_prefix_match, E.
    + cbn [fmap option_fmap option_map]. rewrite <- app_assoc. reflexivity.
Qed.

(** ** Roles *)

Lemma authorize_spec role permission :
  authorize (principal role) permission = true
  <-> exists granted, rolePermissions !! role = Some granted /\ permission ∈ granted.
Proof.
  unfold authorize, checkPermission, get_property.
  cbn [req_user user_role principal].
  destruct (rolePermissions !! role) as [granted|].
  - rewrite bool_decide_eq_true. case_bool_decide as Hin.
    + split; [intros _; exists granted; split; [reflexivity|exact Hin]|reflexivity].
    + split; [discriminate|]. intros (g & [= <-] & Hg). contradiction.
  - rewrite bool_decide_eq_true.
    split; [|intros (g & [=] & _)].
    case_bool_decide; discriminate.
Qed.

Ltac members H :=
  repeat (apply elem_of_cons in H as [->|H]);
  [..|apply elem_of_nil in H; contradiction]; compute_done.

Lemma authorize_cases role permission :
  authorize (principal role) permission = true <->
  (role = "admin" /\ permission ∈ Object_values permissions)
  \/ (role = "doctor"
      /\ permission ∈ ["read:patient"; "write:patient"; "read:record"; "write:record"])
  \/ (role = "nurse" /\ permission ∈ ["read:patient"; "read:record"; "write:record"])
  \/ (role = "patient" /\ permission ∈ ["read:record"]).
Proof.
  rewrite authorize_spec. split.
  - intros (granted & Hg & Hin). apply rolePermissions_lookup in Hg.
    destruct Hg as [[-> ->]|[[-> ->]|[[-> ->]|[-> ->]]]]; auto.
  - intros [[-> Hin]|[[-> Hin]|[[-> Hin]|[-> Hin]]]];
      eexists; (split; [|exact Hin]); reflexivity.
Qed.

(** X14.  Whatever the role, what is granted is one of the five permissions of the
    [permissions] object: no other string is ever let through. *)
Theorem granted_permissions_defined : forall role permission,
  authorize (principal role) permission = true ->
  permission ∈ Object_values permissions.
Proof.
  intros role permission H. apply authorize_cases in H.
  change (Object_values permissions)
    with ["read:patient"; "write:patient"; "read:record"; "write:record"; "manage:users"].
  destruct H as [[_ Hin]|[[_ Hin]|[[_ Hin]|[_ Hin]]]].
  - exact Hin.
  - members Hin.
  - members Hin.
  - members Hin.
Qed.

(** X15.  The roles are nested: what a patient may do a nurse may do, what a nurse
    may do a doctor may do, what a doctor may do an admin may do; and managing
    users is for the admin alone. *)
Theorem role_hierarchy : forall permission,
  (authorize (principal "patient") permission = true ->
   authorize (principal "nurse") permission = true)
  /\ (authorize (principal "nurse") permission = true ->
      authorize (principal "doctor") permission = true)
  /\ (authorize (principal "doctor") permission = true ->
      authorize (principal "admin") permission = true)
  /\ (forall role,
        authorize (principal role) "manage:users" = true <-> role = "admin").
Proof.
  intros permission. rewrite !authorize_cases. split; [|split; [|split]].
  - intros [[[=] _]|[[[=] _]|[[[=] _]|[_ Hin]]]].
    right. right. left. split; [reflexivity|members Hin].
  - intros [[[=] _]|[[[=] _]|[[_ Hin]|[[=] _]]]].
    right. left. split; [reflexivity|members Hin].
  - intros [[[=] _]|[[_ Hin]|[[[=] _]|[[=] _]]]].
    left. split; [reflexivity|].
    change (Object_values permissions)
      with ["read:patient"; "write:patient"; "read:record"; "write:record"; "manage:users"].
    members Hin.
  - intros role. rewrite authorize_cases. split.
    + intros [[-> _]|[[_ Hin]|[[_ Hin]|[_ Hin]]]]; [reflexivity|..];
        exfalso; revert Hin; compute_done.
    + intros ->. left. split; [reflexivity|]. compute_done.
Qed.

(** ** Envelopes that are not clean base64 *)

Module Base64Forgiving.
Import Base64.
Local Open Scope Z_scope.

Lemma sextets_skip a c b :
  0 <= c < 256 -> c <> pad -> unbase64 c = None ->
  sextets (a ++ c :: b) = sextets (a ++ b).
Proof.
  intros Hlow Hpad Hc. induction a as [|x a IH]; cbn [app].
  - rewrite Base64Facts.sextets_cons by exact Hlow.
    rewrite (proj2 (Z.eqb_neq c pad) Hpad), Hc. reflexivity.
  - cbn [sextets]. rewrite IH. reflexivity.
Qed.

Lemma sextets_stop a rest : sextets (a ++ pad :: rest) = sextets (a ++ [pad]).
Proof.
  induction a as [|x a IH]; cbn [app sextets].
  - reflexivity.
  - rewrite IH. reflexivity.
Qed.

End Base64Forgiving.

Section Forgiving.
Context `{Crypto} `{Runtime}.

(** X16.  [decrypt] does not check the text of an envelope: a character below 256
    that is not of the base64 alphabets (a space, a line break) is passed
    over wherever it stands, and what follows a first [=] is not read. *)
Theorem decrypt_ignores_foreign : forall a c b K,
  (0 <= c < 256)%Z -> c <> Base64.pad -> Base64.unbase64 c = None ->
  Encryption.decrypt (VString (a ++ c :: b)) K = Encryption.decrypt (VString (a ++ b)) K
  /\ forall rest,
       Encryption.decrypt (VString (a ++ Base64.pad :: rest)) K
       = Encryption.decrypt (VString (a ++ [Base64.pad])) K.
Proof.
  intros a c b K Hlow Hpad Hc. unfold Encryption.decrypt.
  cbn [Buffer_from_base64 mbind result_bind]. unfold Base64.decode. split.
  - rewrite Base64Forgiving.sextets_skip by assumption. reflexivity.
  - intros rest. rewrite Base64Forgiving.sextets_stop. reflexivity.
Qed.

End Forgiving.

(** ** These theorems at work *)

Module Scenarios.
Import Reference ReferenceFacts Examples.

Lemma ssn_accepted : ssn_matches ssn = true.
Proof. vm_compute. reflexivity. Qed.

(** The social security number of the reference record passes the pattern
    and comes back from the encryption. *)
Lemma validated_ssn_round_trip_witness :
  ssn_matches ssn = true
  /\ exists env,
       Encryption.encrypt (VString ssn) secret counting
         = Ok (env, Encryption.consumed counting)
       /\ Encryption.decrypt (VString env) secret = Ok ssn.
Proof.
  split; [exact ssn_accepted|].
  exact (validated_ssn_round_trip laws ssn secret counting ssn_accepted).
Defined.

(** The reference record holds its social security number in the clear, and
    is not decrypted. *)
Lemma plain_ssn_not_decrypted_witness :
  exists e, Patient.decrypt secret patient = Throw e
            /\ e ∈ [KeyDerivationError; InvalidIV].
Proof.
  exact (@plain_ssn_not_decrypted crypto runtime secret patient ssn eq_refl ssn_accepted).
Defined.

(** The envelope of a social security number: 144 characters for the 107
    bytes. *)
Lemma envelope_text_shape_witness :
  Forall base64_character (envelope_of ssn)
  /\ length (Base64.decode (envelope_of ssn)) = 107
  /\ length (envelope_of ssn) = 144.
Proof.
  destruct (envelope_text_shape ref_tag_full ref_keeps_length _ secret counting _ _
              (encrypt_reference ssn)) as (data & _ & Hdata & Hchars & Hbytes & Hlen).
  rewrite (Hdata ssn eq_refl) in Hbytes, Hlen.
  split; [exact Hchars|]. split; [exact Hbytes|exact Hlen].
Defined.

(** The reference record is encrypted. *)
Lemma patient_encrypt_reference :
  exists p',
    Patient.encrypt secret patient counting
    = Ok (p', Encryption.consumed (Encryption.consumed counting)).
Proof.
  unfold Patient.encrypt.
  change (Patient.get (H0 := runtime) patient "ssn") with (@VString bool ssn).
  rewrite encrypt_reference. cbn [mbind result_bind].
  change (JSON_stringify (Patient.get (H0 := runtime) patient "medicalHistory"))
    with (Ok (@VString bool (quote :: js "asthma" ++ [quote]))).
  cbn [mbind result_bind].
  destruct (ref_encrypt_Ok (quote :: js "asthma" ++ [quote]) secret
              (Encryption.consumed counting)) as (e2 & E2).
  eexists. etrans; [exact (f_equal (fun r => r ≫= _) E2)|]. reflexivity.
Qed.

(** The reference record is encrypted; a record without ssn is not. *)
Lemma patient_encrypt_demands_data_witness :
  (exists p' rng', Patient.encrypt secret patient counting = Ok (p', rng'))
  /\ exists e,
       Patient.encrypt secret {[ "firstName" := VString (js "Ada") ]} counting
       = Throw e.
Proof.
  split.
  - apply (proj1 (@patient_encrypt_demands_data crypto runtime secret patient counting)).
    destruct (ref_deriveKey secret (Encryption.drawn_salt counting))
      as (dk1 & Hdk1 & Hlen1).
    destruct (ref_deriveKey secret
                (Encryption.drawn_salt (Encryption.consumed counting)))
      as (dk2 & Hdk2 & Hlen2).
    exists (UTF8.encode ssn), (VString (quote :: js "asthma" ++ [quote])),
      (UTF8.encode (quote :: js "asthma" ++ [quote])), dk1, dk2.
    repeat split; assumption || reflexivity.
  - apply (proj2 (@patient_encrypt_demands_data crypto runtime secret
                    {[ "firstName" := VString (js "Ada") ]} counting)).
    left. reflexivity.
Defined.

(** The draws of the encryption of the reference record. *)
Lemma patient_encrypt_draws_witness :
  exists p' rng' e1 e2,
    Patient.encrypt secret patient counting = Ok (p', rng')
    /\ p' !! "ssn" = Some (VString e1)
    /\ p' !! "medicalHistory" = Some (VString e2)
    /\ Buffer_slice (Base64.decode e1) 64 80 = counting <$> seq 0 16
    /\ Buffer_slice (Base64.decode e2) 64 80 = counting <$> seq 80 16
    /\ forall i, rng' i = counting (160 + i).
Proof.
  destruct patient_encrypt_reference as (p' & E).
  destruct (@patient_encrypt_draws crypto runtime secret patient p' counting _ E)
    as (e1 & e2 & H1 & H2 & H3 & _ & H5 & _ & H7).
  exists p', (Encryption.consumed (Encryption.consumed counting)), e1, e2.
  repeat split; assumption.
Defined.

(** An envelope with a line break in it, and one with text after its
    padding. *)
Lemma decrypt_ignores_foreign_witness :
  Encryption.decrypt (VString (js "QUJD" ++ 10%Z :: js "RA==")) secret
  = Encryption.decrypt (VString (js "QUJD" ++ js "RA==")) secret
  /\ Encryption.decrypt (VString (js "QUJD" ++ Base64.pad :: js "RA==")) secret
     = Encryption.decrypt (VString (js "QUJD" ++ [Base64.pad])) secret.
Proof.
  destruct (decrypt_ignores_foreign (js "QUJD") 10%Z (js "RA==") secret) as [H1 H2].
  - lia.
  - discriminate.
  - reflexivity.
  - split; [exact H1|exact (H2 (js "RA=="))].
Defined.

(** A header of one word. *)
Lemma token_missing_witness :
  verifyToken Sample.jwt_verify secret (Sample.get_records (Some (js "Bearer")) None)
  = (Sample.get_records (Some (js "Bearer")) None, Respond 401 "No token provided").
Proof.
  apply token_missing. right. left. exists (js "Bearer").
  split; [reflexivity|]. compute_done.
Defined.

(** The sample token after the word Bearer. *)
Lemma token_is_second_field_witness :
  verifyToken Sample.jwt_verify secret
    (Sample.get_records (Some (js "Bearer header.payload.signature")) None)
  = (Sample.get_records (Some (js "Bearer header.payload.signature"))
       (Some Sample.nurse), Next).
Proof.
  apply (token_is_second_field Sample.jwt_verify secret
           (Sample.get_records (Some (js "Bearer header.payload.signature")) None)
           (js "Bearer") Sample.token []).
  - reflexivity.
  - compute_done.
  - compute_done.
  - discriminate.
  - left. reflexivity.
Defined.

(** A role that no table knows. *)
Lemma unknown_role_denied_witness :
  checkPermission "read:record" (request "guest")
  = Respond 403 "Insufficient permissions".
Proof. apply unknown_role_denied; compute_done. Defined.

(** What a nurse is granted is a permission of the table. *)
Lemma granted_permissions_defined_witness :
  authorize (principal "nurse") "write:record" = true
  /\ "write:record" ∈ Object_values permissions.
Proof.
  assert (H : authorize (principal "nurse") "write:record" = true) by reflexivity.
  split; [exact H|exact (granted_permissions_defined "nurse" "write:record" H)].
Defined.

(** A path of the API and a path that is not one. *)
Lemma rewrite_strips_api_witness :
  rewrite (js "/api/patients") []
  = (js "/patients",
     [("Original path:", js "/api/patients"); ("Rewritten path:", js "/patients")])
  /\ rewrite (js "/login") []
     = (js "/login", [("Original path:", js "/login"); ("Rewritten path:", js "/login")]).
Proof.
  split.
  - exact (proj1 rewrite_strips_api (js "/patients") []).
  - apply (proj2 rewrite_strips_api (js "/login") []).
    intros (rest & [=]).
Defined.

(** Two access logs mounted on one response: two lines for a text, four for
    an array, which is sent as its JSON text. *)
Lemma audited_send_logs_witness :
  send (Some Sample.scope) Sample.res_json (mounted 2 OriginalSend)
    (Sample.get_records None (Some Sample.nurse)) (Sample.Text (js "done"))
    Sample.world
  = ({| audit_log :=
          replicate 2 (access_entry Sample.scope Sample.nurse
                         (Sample.get_records None (Some Sample.nurse)));
        sent := [Sample.Text (js "done")] |}, None)
  /\ send (Some Sample.scope) Sample.res_json (mounted 2 OriginalSend)
       (Sample.get_records None (Some Sample.nurse)) (Sample.Json (js "[]"))
       Sample.world
     = ({| audit_log :=
             replicate 4 (access_entry Sample.scope Sample.nurse
                            (Sample.get_records None (Some Sample.nurse)));
           sent := [Sample.Text (js "[]")] |}, None).
Proof.
  split.
  - exact (audited_send_logs Sample.scope Sample.res_json 2
             (Sample.get_records None (Some Sample.nurse)) Sample.nurse
             (Sample.Text (js "done")) Sample.world eq_refl).
  - exact (audited_send_logs Sample.scope Sample.res_json 2
             (Sample.get_records None (Some Sample.nurse)) Sample.nurse
             (Sample.Json (js "[]")) Sample.world eq_refl).
Defined.

(** The same response when nothing binds [req] in the scope of [logAudit]. *)
Lemma audited_send_fails_witness :
  send None Sample.res_json (mounted 1 OriginalSend)
    (Sample.get_records None (Some Sample.nurse)) (Sample.Json (js "[]"))
    Sample.world
  = (Sample.world, Some (ReferenceError "req")).
Proof.
  exact (audited_send_fails None Sample.res_json 0 OriginalSend
           (Sample.get_records None (Some Sample.nurse)) (Sample.Json (js "[]"))
           Sample.world (or_introl eq_refl)).
Defined.

End Scenarios.
